(** * Gemini live camera client: a shallow embedding of the glue code

    The repository wires OS capture devices to a vendor live session through
    two asyncio queues, and wraps the resulting [AudioLoop] object behind a
    module-level singleton (gemini_key.py), a FastAPI service (gemini_api.py)
    and a Streamlit page (app.py).

    The embedding follows the source files, one module per concern:
    - [Base64]         Python's [base64.b64encode] (RFC 4648), used by the
                       capture helpers;
    - [Capture]        [_get_frame], [get_frames], [_get_screen], [get_screen]
                       and [listen_audio] as producers of queue payloads;
    - [Loop]           the [AudioLoop] object, its atomic actions between two
                       await points, [run] and [stop];
    - [Wrapper]        gemini_key.py: the [_audio_loop] global and GEMINI_*;
    - [Api]            gemini_api.py: the endpoint handlers;
    - [Page]           app.py: the Streamlit callbacks and the child process;
    - [Text]           [AudioLoop.send_text] and the except clauses of [run];
    - [Concurrent]     [stop] with other tasks running while it awaits;
    - [FrontEnd]       the API process and the page side by side. *)

From Stdlib Require Import List String Ascii NArith ZArith Bool Lia.
From Stdlib Require Import Strings.Byte DecimalString.
From stdpp Require Import gmap strings.
Import ListNotations.
Local Open Scope string_scope.
Local Open Scope list_scope.

(** ** Python values that travel through the queues *)

(** A Python [bytes] object. *)
Abbreviation bytes := (list byte).

(** The ["data"] entry of a payload is either a [str] (the decoded base64
    text) or a raw [bytes] object; Python never identifies the two. *)
Inductive pydata :=
| PyStr (s : string)
| PyBytes (b : bytes).

(** The dict [{"mime_type": ..., "data": ...}] put on [out_queue]. *)
Record payload := Payload { mime_type : string; data : pydata }.

(** A [types.Blob] of the SDK: its [data] is a bytes field. *)
Record Blob := mkBlob { blob_data : bytes; blob_mime_type : string }.

(** The octets a value occupies on the wire: a [str] of ASCII characters is
    its character codes, a [bytes] object is itself. *)
Definition octets (d : pydata) : bytes :=
  match d with
  | PyStr s => list_byte_of_string s
  | PyBytes b => b
  end.

(** ** base64.b64encode *)

Module Base64.

Definition alphabet : string :=
  "ABCDEFGHIJKLMNOPQRSTUVWXYZabcdefghijklmnopqrstuvwxyz0123456789+/".

(** The character of a 6-bit group. *)
Definition sextet (n : N) : ascii :=
  match String.get (N.to_nat (N.land n 63)) alphabet with
  | Some c => c
  | None => "="%char
  end.

Definition pad : ascii := "="%char.

(** Three input octets make four characters; a tail of one or two octets is
    padded with [=]. *)
Fixpoint encode (bs : bytes) : string :=
  match bs with
  | [] => EmptyString
  | [a] =>
      let n := N.shiftl (Byte.to_N a) 16 in
      String (sextet (N.shiftr n 18)) (String (sextet (N.shiftr n 12))
        (String pad (String pad EmptyString)))
  | [a; b] =>
      let n := N.lor (N.shiftl (Byte.to_N a) 16) (N.shiftl (Byte.to_N b) 8) in
      String (sextet (N.shiftr n 18)) (String (sextet (N.shiftr n 12))
        (String (sextet (N.shiftr n 6)) (String pad EmptyString)))
  | a :: b :: c :: rest =>
      let n := N.lor (N.lor (N.shiftl (Byte.to_N a) 16)
                            (N.shiftl (Byte.to_N b) 8)) (Byte.to_N c) in
      String (sextet (N.shiftr n 18)) (String (sextet (N.shiftr n 12))
        (String (sextet (N.shiftr n 6)) (String (sextet n) (encode rest))))
  end.

(** [base64.b64encode(b).decode()]: the encoding as a [str]. *)
Definition b64encode_decode (b : bytes) : pydata := PyStr (encode b).

(** The inverse direction (RFC 4648, standard alphabet, with padding), which
    the SDK applies to [str] data handed to a bytes field. *)

Definition byte_of (n : N) : byte :=
  match Byte.of_N n with
  | Some b => b
  | None => x00
  end.

Fixpoint index_of (c : ascii) (s : string) (i : N) : option N :=
  match s with
  | EmptyString => None
  | String d s' => if Ascii.eqb c d then Some i else index_of c s' (N.succ i)
  end.

(** The 6-bit group of a character of the alphabet. *)
Definition unsextet (c : ascii) : option N := index_of c alphabet 0.

Definition is_pad (c : ascii) : bool := Ascii.eqb c pad.

Definition is_empty (s : string) : bool :=
  match s with EmptyString => true | _ => false end.

Fixpoint decode (s : string) : option bytes :=
  match s with
  | EmptyString => Some []
  | String c1 (String c2 (String c3 (String c4 rest))) =>
      match unsextet c1, unsextet c2 with
      | Some n1, Some n2 =>
          let b1 := byte_of (n1 * 4 + n2 / 16) in
          if is_pad c3 then
            if is_pad c4 && is_empty rest then Some [b1] else None
          else
            match unsextet c3 with
            | Some n3 =>
                let b2 := byte_of ((n2 mod 16) * 16 + n3 / 4) in
                if is_pad c4 then
                  if is_empty rest then Some [b1; b2] else None
                else
                  match unsextet c4, decode rest with
                  | Some n4, Some bs =>
                      Some (b1 :: b2 :: byte_of ((n3 mod 4) * 64 + n4) :: bs)
                  | _, _ => None
                  end
            | None => None
            end
      | _, _ => None
      end
  | _ => None
  end.

End Base64.

(** ** Capture helpers of gemini_live_cam.py *)

(** What the code asks of OpenCV and Pillow.  Their codecs are outside the
    repository; the helpers below only compose them. *)
Record Imaging := {
  Frame : Type;                          (* a numpy array from the camera *)
  Image : Type;                          (* a PIL image *)
  cvtColor_BGR2RGB : Frame -> Frame;     (* cv2.cvtColor(frame, COLOR_BGR2RGB) *)
  fromarray : Frame -> Image;            (* PIL.Image.fromarray *)
  thumbnail : Image -> Image;            (* img.thumbnail((1024, 1024)) *)
  save_jpeg : Image -> bytes;            (* img.save(io, format="jpeg"); io.read() *)
  Image_open : bytes -> option Image     (* PIL.Image.open; None when it raises *)
}.

Module Capture.

(** One [cap.read()] together with the key [cv2.waitKey(1)] would report. *)
Record reading (im : Imaging) := Reading {
  ret : bool;
  frame : Frame im;
  key : Z
}.
Arguments Reading {im}.
Arguments ret {im}.
Arguments frame {im}.
Arguments key {im}.

(** [_get_frame] returns [None], the string ["ESC_PRESSED"], or a payload. *)
Inductive frame_result :=
| FrameNone
| EscPressed
| FramePayload (p : payload).

(** The JPEG octets [_get_frame] computes from a frame. *)
Definition frame_jpeg (im : Imaging) (f : Frame im) : bytes :=
  save_jpeg im (thumbnail im (fromarray im (cvtColor_BGR2RGB im f))).

Definition _get_frame (im : Imaging) (r : reading im) : frame_result :=
  if negb (ret r) then FrameNone
  else if (key r =? 27)%Z then EscPressed
  else
    let image_bytes := frame_jpeg im (frame r) in
    FramePayload {| mime_type := "image/jpeg";
                    data := Base64.b64encode_decode image_bytes |}.

(** The [while True] loop of [get_frames] over the readings the camera
    delivers: every payload is put on [out_queue]; [None] and ["ESC_PRESSED"]
    leave the loop.  The result is the sequence of [out_queue.put] calls. *)
Fixpoint get_frames_loop (im : Imaging) (rs : list (reading im)) : list payload :=
  match rs with
  | [] => []
  | r :: rs' =>
      match _get_frame im r with
      | FrameNone => []
      | EscPressed => []
      | FramePayload p => p :: get_frames_loop im rs'
      end
  end.

(** [get_frames]: nothing is captured when the camera did not open. *)
Definition get_frames (im : Imaging) (isOpened : bool) (rs : list (reading im))
  : list payload :=
  if isOpened then get_frames_loop im rs else [].

(** [_get_screen] on the raw RGB octets of one [sct.grab(monitor)]; [None]
    stands for the exception [PIL.Image.open] raises. *)
Definition _get_screen (im : Imaging) (rgb : bytes) : option payload :=
  match Image_open im rgb with
  | None => None
  | Some img =>
      let image_bytes := save_jpeg im img in
      Some {| mime_type := "image/jpeg";
              data := Base64.b64encode_decode image_bytes |}
  end.

(** The loop of [get_screen]; an exception of [_get_screen] ends the task. *)
Fixpoint get_screen (im : Imaging) (grabs : list bytes) : list payload :=
  match grabs with
  | [] => []
  | g :: grabs' =>
      match _get_screen im g with
      | None => []
      | Some p => p :: get_screen im grabs'
      end
  end.

(** The loop of [listen_audio] over the chunks [audio_stream.read] returns:
    each chunk is put on [out_queue] as it is. *)
Definition listen_audio (chunks : list bytes) : list payload :=
  map (fun chunk => {| data := PyBytes chunk; mime_type := "audio/pcm" |}) chunks.

(** The readings after which [get_frames_loop] is still running. *)
Definition usable {im : Imaging} (r : reading im) : bool :=
  ret r && negb (key r =? 27)%Z.

Fixpoint take_while {A} (f : A -> bool) (l : list A) : list A :=
  match l with
  | [] => []
  | x :: l' => if f x then x :: take_while f l' else []
  end.

(** The grabs [get_screen] turns into payloads. *)
Fixpoint opened_images (im : Imaging) (grabs : list bytes) : list (Image im) :=
  match grabs with
  | [] => []
  | g :: grabs' =>
      match Image_open im g with
      | None => []
      | Some img => img :: opened_images im grabs'
      end
  end.

(** A stand-in imaging stack for concrete runs: frames and images are their
    octets and every conversion is the identity; [Image_open] rejects empty
    input. *)
Definition plain_imaging : Imaging := {|
  Frame := bytes;
  Image := bytes;
  cvtColor_BGR2RGB := fun f => f;
  fromarray := fun f => f;
  thumbnail := fun i => i;
  save_jpeg := fun i => i;
  Image_open := fun b => match b with [] => None | _ => Some b end
|}.

End Capture.

(** ** The AudioLoop object of gemini_live_cam.py *)

Module Loop.

(** Handles of the vendor live session and of a PyAudio stream; both are
    opaque to the repository. *)
Record Session := mkSession { session_id : nat }.
Record Stream := mkStream { stream_id : nat }.

(** An instance attribute that [__init__] does not create: it is absent until
    first assigned, and then holds [None] or a value. *)
Inductive attr (A : Type) :=
| Unset
| Attr (v : option A).
Arguments Unset {A}.
Arguments Attr {A}.

(** The fields of [self] the methods read or write.  [send_text_task],
    [receive_audio_task] and [play_audio_task] are set to [None] by
    [__init__] and never touched again, so they are left out. *)
Record AudioLoop := mkLoop {
  video_mode : string;
  audio_in_queue : list bytes;       (* asyncio.Queue() *)
  out_queue : list payload;          (* asyncio.Queue(maxsize=5) *)
  session : option Session;
  audio_stream : attr Stream
}.

Definition DEFAULT_MODE : string := "camera".
Definition out_queue_maxsize : nat := 5.

Definition __init__ (mode : string) : AudioLoop :=
  {| video_mode := mode;
     audio_in_queue := [];
     out_queue := [];
     session := None;
     audio_stream := Unset |}.

(** One message of a turn: [response.data] and [response.text]. *)
Record response := Response {
  r_data : option bytes;
  r_text : option string
}.

(** What a step does to the outside world. *)
Inductive effect :=
| Sent (b : Blob)          (* session.send_realtime_input(media=b) *)
| Wrote (chunk : bytes)    (* stream.write(chunk) on the output stream *)
| Printed (s : string).

(** What the bytes field of a [types.Blob] holds for the [data] it is given:
    a [bytes] object as it is, a [str] base64-decoded; [None] when the
    validation of the field raises. *)
Definition held (d : pydata) : option bytes :=
  match d with
  | PyBytes b => Some b
  | PyStr s => Base64.decode s
  end.

(** [types.Blob(data=msg["data"], mime_type=msg["mime_type"])] *)
Definition blob_of (msg : payload) : option Blob :=
  match held (data msg) with
  | Some b => Some {| blob_data := b; blob_mime_type := mime_type msg |}
  | None => None
  end.

(** [while not q.empty(): q.get_nowait()] *)
Fixpoint drain {A} (q : list A) : list A :=
  match q with
  | [] => []
  | _ :: q' => drain q'
  end.

(** The code that runs between two await points is atomic under asyncio.
    Each action is one such piece of a task of the loop. *)
Inductive action :=
| Connect (s : Session)   (* run: the session is stored, both queues re-created *)
| Put (m : payload)       (* a producer's [await self.out_queue.put(m)] returns *)
| SendRealtime            (* send_realtime: one get from out_queue and its send *)
| OpenMic (st : Stream)   (* listen_audio: self.audio_stream = pya.open(...) *)
| Receive (r : response)  (* receive_audio: one response of the current turn *)
| TurnEnd                 (* receive_audio: the turn is over, the queue is emptied *)
| Play.                   (* play_audio: one get from audio_in_queue and its write *)

(** [exec a l] is [None] when the task cannot complete the step: a put on a
    full queue, a get on an empty one, or a [types.Blob] that rejects its
    data (the exception ends the task).  The queues are fields of the loop:
    a task that is still waiting on a queue object [run] has since replaced
    is outside these steps. *)
Definition exec (a : action) (l : AudioLoop) : option (AudioLoop * list effect) :=
  match a with
  | Connect s =>
      Some ({| video_mode := video_mode l;
               audio_in_queue := [];
               out_queue := [];
               session := Some s;
               audio_stream := audio_stream l |}, [])
  | Put m =>
      if (length (out_queue l) <? out_queue_maxsize)%nat then
        Some ({| video_mode := video_mode l;
                 audio_in_queue := audio_in_queue l;
                 out_queue := out_queue l ++ [m];
                 session := session l;
                 audio_stream := audio_stream l |}, [])
      else None
  | SendRealtime =>
      match out_queue l with
      | [] => None
      | msg :: q =>
          let l' := {| video_mode := video_mode l;
                       audio_in_queue := audio_in_queue l;
                       out_queue := q;
                       session := session l;
                       audio_stream := audio_stream l |} in
          match session l with
          | Some _ =>
              match blob_of msg with
              | Some b => Some (l', [Sent b])
              | None => None
              end
          | None =>
              Some (l', [Printed "Session is not initialized. Unable to send message."])
          end
      end
  | OpenMic st =>
      Some ({| video_mode := video_mode l;
               audio_in_queue := audio_in_queue l;
               out_queue := out_queue l;
               session := session l;
               audio_stream := Attr (Some st) |}, [])
  | Receive r =>
      match r_data r with
      | Some (b :: bs) =>
          Some ({| video_mode := video_mode l;
                   audio_in_queue := audio_in_queue l ++ [b :: bs];
                   out_queue := out_queue l;
                   session := session l;
                   audio_stream := audio_stream l |}, [])
      | _ =>
          match r_text r with
          | Some (String c t) => Some (l, [Printed (String c t)])
          | _ => Some (l, [])
          end
      end
  | TurnEnd =>
      Some ({| video_mode := video_mode l;
               audio_in_queue := drain (audio_in_queue l);
               out_queue := out_queue l;
               session := session l;
               audio_stream := audio_stream l |}, [])
  | Play =>
      match audio_in_queue l with
      | [] => None
      | bytestream :: q =>
          Some ({| video_mode := video_mode l;
                   audio_in_queue := q;
                   out_queue := out_queue l;
                   session := session l;
                   audio_stream := audio_stream l |}, [Wrote bytestream])
      end
  end.

(** A schedule: the actions in the order the event loop ran them.  [None]
    when the schedule asks a blocked task to move. *)
Fixpoint run_actions (acts : list action) (l : AudioLoop)
  : option (AudioLoop * list effect) :=
  match acts with
  | [] => Some (l, [])
  | a :: acts' =>
      match exec a l with
      | None => None
      | Some (l1, e1) =>
          match run_actions acts' l1 with
          | None => None
          | Some (l2, e2) => Some (l2, e1 ++ e2)
          end
      end
  end.

(** As [run_actions], but a blocked task simply does not move. *)
Fixpoint perform (acts : list action) (l : AudioLoop) : AudioLoop :=
  match acts with
  | [] => l
  | a :: acts' =>
      match exec a l with
      | None => perform acts' l
      | Some (l1, _) => perform acts' l1
      end
  end.

(** Projections of a schedule and of its effects. *)
Definition puts (acts : list action) : list payload :=
  flat_map (fun a => match a with Put m => [m] | _ => [] end) acts.

Definition received (acts : list action) : list bytes :=
  flat_map (fun a => match a with
                     | Receive r => match r_data r with
                                    | Some (b :: bs) => [b :: bs]
                                    | _ => []
                                    end
                     | _ => []
                     end) acts.

Definition sent (effs : list effect) : list Blob :=
  flat_map (fun e => match e with Sent b => [b] | _ => [] end) effs.

Definition wrote (effs : list effect) : list bytes :=
  flat_map (fun e => match e with Wrote c => [c] | _ => [] end) effs.

Definition is_connect (a : action) : bool :=
  match a with Connect _ => true | _ => false end.

Definition ends_turn (a : action) : bool :=
  match a with Connect _ | TurnEnd => true | _ => false end.

(** *** run *)

Inductive task :=
| T_send_text
| T_send_realtime
| T_listen_audio
| T_get_frames
| T_get_screen
| T_receive_audio
| T_play_audio.

Definition task_eqb (a b : task) : bool :=
  match a, b with
  | T_send_text, T_send_text | T_send_realtime, T_send_realtime
  | T_listen_audio, T_listen_audio | T_get_frames, T_get_frames
  | T_get_screen, T_get_screen | T_receive_audio, T_receive_audio
  | T_play_audio, T_play_audio => true
  | _, _ => false
  end.

(** The [tg.create_task] calls of [run], in program order. *)
Definition run_tasks (l : AudioLoop) : list task :=
  [T_send_text; T_send_realtime; T_listen_audio]
  ++ (if String.eqb (video_mode l) "camera" then [T_get_frames]
      else if String.eqb (video_mode l) "screen" then [T_get_screen]
      else [])
  ++ [T_receive_audio; T_play_audio].

(** [run] once [client.aio.live.connect] has yielded [s]: the state the tasks
    start from, and the tasks. *)
Definition run (s : Session) (l : AudioLoop) : AudioLoop * list task :=
  let l' := {| video_mode := video_mode l;
               audio_in_queue := [];
               out_queue := [];
               session := Some s;
               audio_stream := audio_stream l |} in
  (l', run_tasks l').

Definition started (t : task) (ts : list task) : bool := existsb (task_eqb t) ts.

Definition video_producers (ts : list task) : nat :=
  length (List.filter (fun t => task_eqb t T_get_frames || task_eqb t T_get_screen) ts).

(** *** stop *)

(** [s.lower()] on ASCII text. *)
Definition lower_char (c : ascii) : ascii :=
  let n := nat_of_ascii c in
  if ((65 <=? n) && (n <=? 90))%nat then ascii_of_nat (n + 32) else c.

Fixpoint lower (s : string) : string :=
  match s with
  | EmptyString => EmptyString
  | String c s' => String (lower_char c) (lower s')
  end.

(** [sub in s] *)
Fixpoint contains (sub s : string) : bool :=
  String.prefix sub s
  || match s with
     | EmptyString => false
     | String _ s' => contains sub s'
     end.

(** The test [stop] applies to a task name before cancelling the task. *)
Definition app_task (task_name : string) : bool :=
  contains "gemini" (lower task_name) || contains "audio" (lower task_name)
  || contains "send" (lower task_name) || contains "receive" (lower task_name).

Definition show_nat (n : nat) : string := NilEmpty.string_of_uint (Nat.to_uint n).

(** How [await asyncio.wait_for(close_task, timeout=5.0)] ends. *)
Inductive close_result :=
| CloseDone
| CloseTimeout
| CloseRaised (msg : string).

(** What the outside world does during one call of [stop]; a [Some msg] is
    an exception whose [str] is [msg]. *)
Record StopEnv := {
  destroy_windows : option string;   (* cv2.destroyAllWindows() *)
  stream_stop : option string;       (* audio_stream.stop_stream(); .close() *)
  session_close : close_result;
  task_names : list string           (* get_name() of the other tasks *)
}.

(** [stop]: the returned flag, the object afterwards, and the lines printed.
    Every call that can fail sits in its own try block, so the function
    reaches [return True] on every path. *)
Definition stop (e : StopEnv) (l : AudioLoop) : bool * AudioLoop * list string :=
  let out_windows :=
    match destroy_windows e with
    | None => ["Closed OpenCV windows"]
    | Some m => [String.append "Error closing OpenCV windows: " m]
    end in
  let '(stream1, out_stream) :=
    match audio_stream l with
    | Attr (Some _) =>
        (Attr None,
         "Stopping audio stream..."
         :: match stream_stop e with
            | None => []
            | Some m => [String.append "Error stopping audio stream: " m]
            end)
    | other => (other, [])
    end in
  let audio_in1 := drain (audio_in_queue l) in
  let out1 := drain (out_queue l) in
  let '(session1, out_session) :=
    match session l with
    | Some _ =>
        (None,
         "Closing session..."
         :: match session_close e with
            | CloseDone => ["Session closed successfully"]
            | CloseTimeout => ["Session close timed out, forcing closure"]
            | CloseRaised m => [String.append "Error closing session: " m]
            end)
    | None => (None, [])
    end in
  let tasks_to_cancel := List.filter app_task (task_names e) in
  let out_tasks :=
    map (fun n => String.append "Cancelling task: " n) tasks_to_cancel
    ++ [String.append "Successfully cancelled "
          (String.append (show_nat (length tasks_to_cancel)) " tasks")] in
  (true,
   {| video_mode := video_mode l;
      audio_in_queue := audio_in1;
      out_queue := out1;
      session := session1;
      audio_stream := stream1 |},
   ["Stopping camera and microphone..."] ++ out_windows ++ out_stream
   ++ ["Clearing queues..."] ++ out_session
   ++ ["Cancelling tasks..."] ++ out_tasks
   ++ ["Camera and microphone stopped successfully"]).

(** A quiet environment: nothing fails, no other task is running. *)
Definition calm : StopEnv :=
  {| destroy_windows := None; stream_stop := None;
     session_close := CloseDone; task_names := [] |}.

End Loop.

(** ** gemini_key.py: the module-level singleton and the GEMINI_* functions *)

Module Wrapper.
Import Loop.

Inductive method :=
| M_run | M_send_text | M_get_frames | M_get_screen | M_send_realtime
| M_listen_audio | M_receive_audio | M_play_audio | M_stop.

(** The interpreter state the module works on: the objects allocated so far
    (by address), the global [_audio_loop], and, as a record of what happened,
    the method calls made on each object. *)
Record state := mkState {
  heap : gmap nat AudioLoop;
  _audio_loop : option nat;
  calls : list (nat * method)
}.

(** The module right after import: [_audio_loop = None]. *)
Definition imported : state :=
  {| heap := ∅; _audio_loop := None; calls := [] |}.

Definition _ensure_audio_loop (mode : string) (m : state) : nat * state :=
  match _audio_loop m with
  | None =>
      let a := fresh (dom (heap m)) in
      (a, {| heap := <[a := __init__ mode]> (heap m);
             _audio_loop := Some a;
             calls := calls m |})
  | Some a => (a, m)
  end.

(** [await loop.<method>()]: the method runs its atomic actions on the object
    at [a]; a blocked action does not happen. *)
Definition invoke (mt : method) (acts : list action) (a : nat) (m : state) : state :=
  {| heap := alter (perform acts) a (heap m);
     _audio_loop := _audio_loop m;
     calls := calls m ++ [(a, mt)] |}.

(** [GEMINI_RUN(mode)]: [s] is the session [connect] yields and [acts] the
    schedule of the tasks [run] starts. *)
Definition GEMINI_RUN (mode : string) (s : Session) (acts : list action) (m : state)
  : state :=
  let '(loop, m1) := _ensure_audio_loop mode m in
  invoke M_run (Connect s :: acts) loop m1.

(** [send_text] talks to the session only; no field of the loop changes. *)
Definition GEMINI_SEND_TEXT (m : state) : state :=
  let '(loop, m1) := _ensure_audio_loop "camera" m in
  invoke M_send_text [] loop m1.

Definition GEMINI_GET_FRAMES (im : Imaging) (isOpened : bool)
  (rs : list (Capture.reading im)) (m : state) : state :=
  let '(loop, m1) := _ensure_audio_loop "camera" m in
  invoke M_get_frames (map Put (Capture.get_frames im isOpened rs)) loop m1.

Definition GEMINI_GET_SCREEN (im : Imaging) (grabs : list bytes) (m : state) : state :=
  let '(loop, m1) := _ensure_audio_loop "screen" m in
  invoke M_get_screen (map Put (Capture.get_screen im grabs)) loop m1.

(** [n] iterations of the loop of [send_realtime]. *)
Definition GEMINI_SEND_REALTIME (n : nat) (m : state) : state :=
  let '(loop, m1) := _ensure_audio_loop "camera" m in
  invoke M_send_realtime (repeat SendRealtime n) loop m1.

Definition GEMINI_LISTEN_AUDIO (st : Stream) (chunks : list bytes) (m : state) : state :=
  let '(loop, m1) := _ensure_audio_loop "camera" m in
  invoke M_listen_audio (OpenMic st :: map Put (Capture.listen_audio chunks)) loop m1.

(** The turns [receive_audio] sees, each a list of responses. *)
Definition GEMINI_RECEIVE_AUDIO (turns : list (list response)) (m : state) : state :=
  let '(loop, m1) := _ensure_audio_loop "camera" m in
  invoke M_receive_audio
    (flat_map (fun turn => map Receive turn ++ [TurnEnd]) turns) loop m1.

Definition GEMINI_PLAY_AUDIO (n : nat) (m : state) : state :=
  let '(loop, m1) := _ensure_audio_loop "camera" m in
  invoke M_play_audio (repeat Play n) loop m1.

(** [GEMINI_STOP]: the flag returned and the module afterwards.  A global
    holding an address without an object does not arise in Python ([wf]
    below is an invariant); on such a state the model only clears the
    global. *)
Definition GEMINI_STOP (e : StopEnv) (m : state) : bool * state :=
  match _audio_loop m with
  | Some a =>
      match heap m !! a with
      | Some obj =>
          let '(success, obj', _) := stop e obj in
          (success, {| heap := <[a := obj']> (heap m);
                       _audio_loop := None;
                       calls := calls m ++ [(a, M_stop)] |})
      | None => (true, {| heap := heap m; _audio_loop := None; calls := calls m |})
      end
  | None => (true, m)
  end.

(** A wrapper call other than [GEMINI_STOP], with what its method meets. *)
Inductive op :=
| Run (mode : string) (s : Session) (acts : list action)
| SendText
| GetFrames (im : Imaging) (isOpened : bool) (rs : list (Capture.reading im))
| GetScreen (im : Imaging) (grabs : list bytes)
| SendRealtimeN (n : nat)
| ListenAudio (st : Stream) (chunks : list bytes)
| ReceiveAudio (turns : list (list response))
| PlayAudio (n : nat)
| Stop (e : StopEnv).

Definition apply_op (o : op) (m : state) : state :=
  match o with
  | Run mode s acts => GEMINI_RUN mode s acts m
  | SendText => GEMINI_SEND_TEXT m
  | GetFrames im isOpened rs => GEMINI_GET_FRAMES im isOpened rs m
  | GetScreen im grabs => GEMINI_GET_SCREEN im grabs m
  | SendRealtimeN n => GEMINI_SEND_REALTIME n m
  | ListenAudio st chunks => GEMINI_LISTEN_AUDIO st chunks m
  | ReceiveAudio turns => GEMINI_RECEIVE_AUDIO turns m
  | PlayAudio n => GEMINI_PLAY_AUDIO n m
  | Stop e => snd (GEMINI_STOP e m)
  end.

Definition apply_ops (os : list op) (m : state) : state :=
  fold_left (fun m o => apply_op o m) os m.

Definition is_stop (o : op) : bool :=
  match o with Stop _ => true | _ => false end.

(** The mode an operation passes to [_ensure_audio_loop]. *)
Definition op_mode (o : op) : string :=
  match o with
  | Run mode _ _ => mode
  | GetScreen _ _ => "screen"
  | _ => "camera"
  end.

(** The [video_mode] of the object at address [a], if there is one. *)
Definition mode_at (a : nat) (m : state) : option string :=
  video_mode <$> heap m !! a.

(** Every address the module mentions holds an object. *)
Definition wf (m : state) : Prop :=
  match _audio_loop m with
  | Some a => is_Some (heap m !! a)
  | None => True
  end.

End Wrapper.

(** ** gemini_api.py: the FastAPI handlers *)

(** How an awaited call ends: it returns a value, or it raises an
    [Exception] whose [str] is [msg]. *)
Inductive outcome (A : Type) :=
| Returns (v : A)
| Raises (msg : string).
Arguments Returns {A}.
Arguments Raises {A}.

Module Api.

(** [ModeRequest.mode]: pydantic admits only the two literals. *)
Inductive mode := Camera | Screen.

Definition mode_str (m : mode) : string :=
  match m with Camera => "camera" | Screen => "screen" end.

(** What FastAPI sends back: the returned dict as a 200 response (through
    [ResponseModel]), or the raised [HTTPException]. *)
Inductive response :=
| Json (status message timestamp : string)
| HTTPException (status_code : nat) (detail : string).

(** [str(e)] of an [HTTPException] is its code, a colon and its detail. *)
Definition str_http (status_code : nat) (detail : string) : string :=
  String.append (Loop.show_nat status_code) (String.append ": " detail).

Definition status_code_of (r : response) : nat :=
  match r with
  | Json _ _ _ => 200
  | HTTPException c _ => c
  end.

Definition body_status (r : response) : option string :=
  match r with
  | Json st _ _ => Some st
  | HTTPException _ _ => None
  end.

(** The try block shared by the eight handlers that only await one call:
    [message] is the text of the success reply, [now] is
    [datetime.now().isoformat()]. *)
Definition guarded (call : outcome unit) (message now : string) : response :=
  match call with
  | Returns _ => Json "success" message now
  | Raises e => HTTPException 500 e
  end.

Definition run_gemini (GEMINI_RUN : string -> outcome unit) (req : mode) (now : string)
  : response :=
  guarded (GEMINI_RUN (mode_str req))
    (String.append "Started Gemini Live in " (String.append (mode_str req) " mode")) now.

Definition send_text (GEMINI_SEND_TEXT : unit -> outcome unit) (now : string) : response :=
  guarded (GEMINI_SEND_TEXT tt) "Text input sent" now.

Definition get_frames (GEMINI_GET_FRAMES : unit -> outcome unit) (now : string) : response :=
  guarded (GEMINI_GET_FRAMES tt) "Frames captured" now.

Definition get_screen (GEMINI_GET_SCREEN : unit -> outcome unit) (now : string) : response :=
  guarded (GEMINI_GET_SCREEN tt) "Screen captured" now.

Definition send_realtime (GEMINI_SEND_REALTIME : unit -> outcome unit) (now : string)
  : response :=
  guarded (GEMINI_SEND_REALTIME tt) "Realtime input sent" now.

Definition listen_audio (GEMINI_LISTEN_AUDIO : unit -> outcome unit) (now : string)
  : response :=
  guarded (GEMINI_LISTEN_AUDIO tt) "Listening to audio" now.

Definition receive_audio (GEMINI_RECEIVE_AUDIO : unit -> outcome unit) (now : string)
  : response :=
  guarded (GEMINI_RECEIVE_AUDIO tt) "Audio received" now.

Definition play_audio (GEMINI_PLAY_AUDIO : unit -> outcome unit) (now : string)
  : response :=
  guarded (GEMINI_PLAY_AUDIO tt) "Audio playback started" now.

(** [os.getenv("GEMINI_API_KEY")] is falsy when unset or empty. *)
Definition truthy (v : option string) : bool :=
  match v with
  | Some (String _ _) => true
  | _ => false
  end.

(** [stop_gemini]: every [HTTPException] raised inside the try block is an
    [Exception] too, so the handler at the end catches it and raises a new
    one with the text of the first in its detail. *)
Definition stop_gemini (getenv_key : option string)
  (GEMINI_STOP : unit -> outcome bool) (now : string) : response :=
  let rethrow (e : string) :=
    HTTPException 500 (String.append "Failed to stop session: " e) in
  if negb (truthy getenv_key) then
    rethrow (str_http 500 "GEMINI_API_KEY not found in environment variables")
  else
    match GEMINI_STOP tt with
    | Returns success =>
        if negb success then rethrow (str_http 500 "Failed to stop session")
        else Json "success" "Session ended successfully" now
    | Raises e => rethrow e
    end.

(** The nine endpoints of the claim, and the handler behind each. *)
Inductive endpoint :=
| E_run (req : mode) | E_send_text | E_get_frames | E_get_screen
| E_send_realtime | E_listen_audio | E_receive_audio | E_play_audio | E_stop.

(** The reply of an endpoint, given how its GEMINI_* call ends; only [/stop]
    looks at the value returned and at the environment. *)
Definition serve (e : endpoint) (getenv_key : option string) (call : outcome bool)
  (now : string) : response :=
  let unit_call : outcome unit :=
    match call with Returns _ => Returns tt | Raises m => Raises m end in
  match e with
  | E_run req => run_gemini (fun _ => unit_call) req now
  | E_send_text => send_text (fun _ => unit_call) now
  | E_get_frames => get_frames (fun _ => unit_call) now
  | E_get_screen => get_screen (fun _ => unit_call) now
  | E_send_realtime => send_realtime (fun _ => unit_call) now
  | E_listen_audio => listen_audio (fun _ => unit_call) now
  | E_receive_audio => receive_audio (fun _ => unit_call) now
  | E_play_audio => play_audio (fun _ => unit_call) now
  | E_stop => stop_gemini getenv_key (fun _ => call) now
  end.

End Api.

(** ** app.py: the Streamlit callbacks *)

Module Page.
Import Loop.

(** A child process running gemini_live_cam.py: its [__main__] block builds
    [main = AudioLoop(video_mode=args.mode)]; the page only holds the pipe. *)
Record child := mkChild {
  main : AudioLoop;
  stdin : list string;       (* lines written by the page, oldest first *)
  signalled : bool           (* SIGTERM or kill was sent *)
}.

(** The entries of [st.session_state] the three callbacks use. *)
Record session_state := mkSession_state {
  session_started : bool;
  process : option nat;      (* the Popen object, by process id *)
  text_input : string;
  api_key_status : bool
}.

Record host := mkHost {
  st : session_state;
  children : gmap nat child
}.

Definition init_session_state : session_state :=
  {| session_started := false; process := None; text_input := EmptyString;
     api_key_status := false |}.

Definition fresh_host : host := {| st := init_session_state; children := ∅ |}.

(** [check_api_key]: [client] is the truth value of the imported client. *)
Definition check_api_key (client : bool) (s : session_state) : bool * session_state :=
  if client then
    (true, {| session_started := session_started s; process := process s;
              text_input := text_input s; api_key_status := true |})
  else (false, s).

(** [start_session]: [popen] tells whether [subprocess.Popen] and the lines
    after it succeed.  The command line carries no [--mode], so the child
    builds its loop with [DEFAULT_MODE]. *)
Definition start_session (client popen : bool) (h : host) : host :=
  let '(ok, s) := check_api_key client (st h) in
  if negb ok then {| st := s; children := children h |}
  else if popen then
    let pid := fresh (dom (children h)) in
    {| st := {| session_started := true; process := Some pid;
                text_input := text_input s; api_key_status := api_key_status s |};
       children := <[pid := {| main := __init__ DEFAULT_MODE; stdin := [];
                               signalled := false |}]> (children h) |}
  else
    {| st := {| session_started := false; process := None;
                text_input := text_input s; api_key_status := api_key_status s |};
       children := children h |}.



Definition write_line (line : string) (c : child) : child :=
  {| main := main c; stdin := stdin c ++ [line]; signalled := signalled c |}.

(** [send_text]: the text goes to the standard input of the child. *)
Definition send_text (h : host) : host :=
  if negb (session_started (st h)) then h
  else
    match text_input (st h), process (st h) with
    | String c t, Some pid =>
        {| st := {| session_started := session_started (st h);
                    process := process (st h);
                    text_input := EmptyString;
                    api_key_status := api_key_status (st h) |};
           children := alter (write_line (String.append (String c t) (String "010"%char EmptyString)))
                         pid (children h) |}
    | _, _ => h
    end.

End Page.

(** ** The two front ends side by side *)





(** ** Concrete runs *)

Module Sample.
Import Loop.

Definition frame1 : payload :=
  {| mime_type := "image/jpeg"; data := Base64.b64encode_decode [xff; xd8; xff] |}.
Definition mic1 : payload := {| mime_type := "audio/pcm"; data := PyBytes [x01; x00] |}.
Definition mic2 : payload := {| mime_type := "audio/pcm"; data := PyBytes [x02; x00] |}.

Definition live : Session := mkSession 7.

(** A loop whose [run] has connected. *)
Definition connected : AudioLoop := fst (run live (__init__ "camera")).

(** Two puts, a send, a put, a send. *)
Definition outbound : list action :=
  [Put mic1; Put frame1; SendRealtime; Put mic2; SendRealtime].

Definition chunk_a : bytes := [x10; x11].
Definition chunk_b : bytes := [x20; x21].

(** A turn in which two chunks arrive and one is played before it ends. *)
Definition turn : list action :=
  [Receive (Response (Some chunk_a) None); Receive (Response (Some chunk_b) None); Play].

(** The wrapper after [GEMINI_RUN(mode="camera")] on a freshly imported
    module, and two later calls, the first of them [GEMINI_GET_SCREEN]. *)
Definition running : Wrapper.state :=
  Wrapper.GEMINI_RUN "camera" live [] Wrapper.imported.

Definition later : list Wrapper.op :=
  [Wrapper.GetScreen Capture.plain_imaging [[x01]]; Wrapper.SendText].

End Sample.

(** ** AudioLoop.send_text and the way run ends *)

Module Text.
Import Loop.

(** What one iteration of [send_text] does to the outside world. *)
Inductive text_effect :=
| SentText (text : string)   (* session.send_client_content(... Part(text=text)) *)
| NoSession.                 (* print("Session is not initialized. Unable to send text.") *)

(** [text.lower() == "q"] *)
Definition is_quit (text : string) : bool := String.eqb (lower text) "q".

(** [text or "."] *)
Definition or_dot (text : string) : string :=
  match text with
  | EmptyString => "."
  | _ => text
  end.

(** The loop of [send_text] over the lines [input] returns, each with the
    value [self.session] has when the line is handled.  The flag tells whether
    the loop was left through [break]; it is [false] when the lines run out
    with the loop still waiting. *)
Fixpoint send_text (inputs : list (string * option Session)) : bool * list text_effect :=
  match inputs with
  | [] => (false, [])
  | (text, sess) :: rest =>
      if is_quit text then (true, [])
      else
        let '(quit, effs) := send_text rest in
        (quit,
         match sess with
         | Some _ => SentText (or_dot text)
         | None => NoSession
         end :: effs)
  end.

Definition sent_texts (effs : list text_effect) : list string :=
  flat_map (fun e => match e with SentText t => [t] | NoSession => [] end) effs.

(** The lines handled before the first quit line. *)
Fixpoint before_quit (inputs : list (string * option Session))
  : list (string * option Session) :=
  match inputs with
  | [] => []
  | (text, sess) :: rest =>
      if is_quit text then [] else (text, sess) :: before_quit rest
  end.

Definition has_session (i : string * option Session) : bool :=
  match snd i with Some _ => true | None => false end.

(** [input()] on one line of standard input: the line without its final
    newline. *)
Fixpoint input (line : string) : string :=
  match line with
  | EmptyString => EmptyString
  | String c rest =>
      match rest with
      | EmptyString => if Ascii.eqb c "010"%char then EmptyString else line
      | _ => String c (input rest)
      end
  end.

(** The [send_text] task of a child of the page, fed by the lines the page
    wrote to its standard input. *)
Definition child_send_text (sess : option Session) (c : Page.child)
  : bool * list text_effect :=
  send_text (map (fun line => (input line, sess)) (Page.stdin c)).

(** How the body of [run] is left. *)
Inductive ending :=
| UserExit                 (* asyncio.CancelledError: send_text returned *)
| TaskFailure              (* an ExceptionGroup from the task group *)
| Other (msg : string).    (* any other exception, e.g. from connect *)

(** The except clauses of [run]: a cancellation is swallowed; a task failure
    closes [self.audio_stream] and prints the traceback, which needs the
    attribute to hold a stream; anything else propagates.  The flag tells
    whether the stream was closed. *)
Definition run_exit (en : ending) (l : AudioLoop) : outcome unit * bool :=
  match en with
  | UserExit => (Returns tt, false)
  | TaskFailure =>
      match audio_stream l with
      | Attr (Some _) => (Returns tt, true)
      | Attr None => (Raises "'NoneType' object has no attribute 'close'", false)
      | Unset => (Raises "'AudioLoop' object has no attribute 'audio_stream'", false)
      end
  | Other msg => (Raises msg, false)
  end.

(** The name asyncio gives the [n]-th task created without one, as all the
    tasks of [run] are. *)
Definition default_task_name (n : nat) : string :=
  String.append "Task-" (show_nat n).

Definition is_send (a : action) : bool :=
  match a with SendRealtime => true | _ => false end.

Definition is_play (a : action) : bool :=
  match a with Play => true | _ => false end.

Definition is_digit (c : ascii) : bool :=
  ((48 <=? nat_of_ascii c) && (nat_of_ascii c <=? 57))%nat.

Fixpoint digits_only (s : string) : bool :=
  match s with
  | EmptyString => true
  | String c s' => is_digit c && digits_only s'
  end.

End Text.

(** ** app.py: st.session_state as a dictionary *)

Module SessionDict.

(** The values the page stores. *)
Inductive pyval :=
| VBool (b : bool)
| VNone
| VStr (s : string)
| VObj (id : nat).

(** [if key not in st.session_state: st.session_state.key = v] *)
Definition set_if_missing (key : string) (v : pyval) (d : gmap string pyval)
  : gmap string pyval :=
  match d !! key with
  | Some _ => d
  | None => <[key := v]> d
  end.

Definition init_session_state (d : gmap string pyval) : gmap string pyval :=
  set_if_missing "cap" VNone
    (set_if_missing "camera_thread" VNone
      (set_if_missing "camera_placeholder" VNone
        (set_if_missing "api_key_status" (VBool false)
          (set_if_missing "text_input" (VStr EmptyString)
            (set_if_missing "process" VNone
              (set_if_missing "session_started" (VBool false) d)))))).

(** The entries of a page opened for the first time. *)
Definition defaults : gmap string pyval := init_session_state ∅.

End SessionDict.

(** ** More concrete runs *)

Module Sample2.
Import Loop.

(** A page with a running child and the text [Q] typed in. *)
Definition typing_quit : Page.host :=
  let h := Page.start_session true true Page.fresh_host in
  {| Page.st := {| Page.session_started := Page.session_started (Page.st h);
                   Page.process := Page.process (Page.st h);
                   Page.text_input := "Q";
                   Page.api_key_status := Page.api_key_status (Page.st h) |};
     Page.children := Page.children h |}.

(** Six frames offered to a queue that holds five. *)
Definition six : list payload :=
  [Sample.mic1; Sample.mic2; Sample.frame1; Sample.mic1; Sample.mic2; Sample.frame1].

End Sample2.

(** ** stop among the other tasks *)

Module Concurrent.
Import Loop.

(** [stop] suspends twice: in [await asyncio.wait_for(close_task, ...)],
    reached when [self.session] is set, and in [await asyncio.gather(...)],
    reached when some task was picked for cancellation.  While it is
    suspended the other tasks of the event loop run: [during_close] and
    [during_gather] are the atomic actions they perform on the loop in the
    meantime.  The lines printed are those of [stop]. *)
Definition stop_interleaved (e : StopEnv) (during_close during_gather : list action)
  (l : AudioLoop) : bool * AudioLoop * list string :=
  let l1 := {| video_mode := video_mode l;
               audio_in_queue := drain (audio_in_queue l);
               out_queue := drain (out_queue l);
               session := session l;
               audio_stream := match audio_stream l with
                               | Attr (Some _) => Attr None
                               | other => other
                               end |} in
  let l2 :=
    match session l1 with
    | Some _ =>
        let l' := perform during_close l1 in
        {| video_mode := video_mode l';
           audio_in_queue := audio_in_queue l';
           out_queue := out_queue l';
           session := None;
           audio_stream := audio_stream l' |}
    | None => l1
    end in
  let l3 :=
    match List.filter app_task (task_names e) with
    | [] => l2
    | _ :: _ => perform during_gather l2
    end in
  (true, l3, snd (stop e l)).

End Concurrent.

(** ** Both front ends in one world *)

Module FrontEnd.
Import Loop.








End FrontEnd.

(** * Properties *)

(** ** base64 *)

Example b64_Man : Base64.encode [x4d; x61; x6e] = "TWFu".
Proof. reflexivity. Qed.

Example b64_Ma : Base64.encode [x4d; x61] = "TWE=".
Proof. reflexivity. Qed.

Example b64_M : Base64.encode [x4d] = "TQ==".
Proof. reflexivity. Qed.

Example b64_high : Base64.encode [xff; xfe; xfd; xfc] = "//79/A==".
Proof. reflexivity. Qed.

(** Induction three octets at a time, the way [Base64.encode] recurses. *)
Lemma triples_ind (P : bytes -> Prop) :
  P [] -> (forall a, P [a]) -> (forall a b, P [a; b]) ->
  (forall a b c rest, P rest -> P (a :: b :: c :: rest)) ->
  forall bs, P bs.
Proof.
  intros H0 H1 H2 H3.
  fix IH 1.
  intros [|a [|b [|c rest]]];
    [exact H0 | apply H1 | apply H2 | apply H3; apply IH].
Qed.

(** The encoding of [n] octets has [4 * ceil (n / 3)] characters. *)
Lemma encode_length (bs : bytes) :
  String.length (Base64.encode bs) = 4 * ((length bs + 2) / 3).
Proof.
  induction bs as [| a | a b | a b c rest IH] using triples_ind;
    try reflexivity.
  cbn [Base64.encode String.length length]. rewrite IH.
  replace (S (S (S (length rest))) + 2) with (length rest + 2 + 1 * 3) by lia.
  rewrite Nat.div_add by lia. lia.
Qed.

Lemma length_list_byte_of_string (s : string) :
  length (list_byte_of_string s) = String.length s.
Proof.
  unfold list_byte_of_string. rewrite length_map.
  induction s as [|c s IH]; cbn; [reflexivity | now rewrite IH].
Qed.

(** A non-empty [bytes] object is never the text of its own encoding: the
    encoding is strictly longer. *)
Lemma raw_is_not_base64 (chunk : bytes) :
  chunk <> [] -> octets (PyBytes chunk) <> octets (Base64.b64encode_decode chunk).
Proof.
  intros Hne Heq. apply (f_equal (@length byte)) in Heq.
  cbn [octets Base64.b64encode_decode] in Heq.
  rewrite length_list_byte_of_string, encode_length in Heq.
  destruct chunk as [|a chunk]; [congruence |].
  cbn [length] in Heq.
  pose proof (Nat.div_mod_eq (S (length chunk) + 2) 3) as Hd.
  pose proof (Nat.mod_upper_bound (S (length chunk) + 2) 3) as Hm.
  lia.
Qed.

(** *** base64: decoding the encoding *)

Lemma sextet_index (m : nat) :
  (m < 64)%nat ->
  exists c, String.get m Base64.alphabet = Some c
    /\ Base64.unsextet c = Some (N.of_nat m) /\ Base64.is_pad c = false.
Proof.
  intros H.
  do 64 (destruct m as [|m]; [eexists; repeat split; reflexivity |]). lia.
Qed.

Lemma unsextet_sextet (n : N) :
  Base64.unsextet (Base64.sextet n) = Some (N.land n 63)
  /\ Base64.is_pad (Base64.sextet n) = false.
Proof.
  unfold Base64.sextet.
  assert (Hb : (N.land n 63 < 64)%N).
  { change 63%N with (N.ones 6). rewrite N.land_ones. now apply N.mod_lt. }
  destruct (sextet_index (N.to_nat (N.land n 63))) as (c & -> & Hu & Hp); [lia |].
  rewrite N2Nat.id in Hu. split; assumption.
Qed.

Lemma lor_shiftl_small (x y k : N) :
  (y < 2 ^ k)%N -> N.lor (N.shiftl x k) y = (x * 2 ^ k + y)%N.
Proof.
  intros Hy.
  assert (Hl : N.land (N.shiftl x k) y = 0%N).
  { apply N.bits_inj. intros i. rewrite N.land_spec, N.bits_0.
    destruct (N.lt_ge_cases i k) as [Hi | Hi].
    - now rewrite N.shiftl_spec_low.
    - rewrite <- (N.mod_small y (2 ^ k)) by exact Hy.
      rewrite N.mod_pow2_bits_high by exact Hi. apply andb_false_r. }
  rewrite <- (N.lxor_lor _ _ Hl), <- (N.add_nocarry_lxor _ _ Hl).
  now rewrite N.shiftl_mul_pow2.
Qed.

Lemma to_N_lt (a : byte) : (Byte.to_N a < 256)%N.
Proof. pose proof (Byte.to_N_bounded a). lia. Qed.

Lemma pack3 (a b c : byte) :
  N.lor (N.lor (N.shiftl (Byte.to_N a) 16) (N.shiftl (Byte.to_N b) 8)) (Byte.to_N c)
  = (Byte.to_N a * 65536 + Byte.to_N b * 256 + Byte.to_N c)%N.
Proof.
  pose proof (to_N_lt a). pose proof (to_N_lt b). pose proof (to_N_lt c).
  replace (N.shiftl (Byte.to_N a) 16) with (N.shiftl (N.shiftl (Byte.to_N a) 8) 8)
    by (rewrite N.shiftl_shiftl; reflexivity).
  rewrite <- N.shiftl_lor.
  rewrite (lor_shiftl_small (Byte.to_N a) (Byte.to_N b) 8) by (cbn; lia).
  rewrite lor_shiftl_small by (cbn; lia).
  change (2 ^ 8)%N with 256%N. lia.
Qed.

Lemma group (n k : N) : N.land (N.shiftr n k) 63 = ((n / 2 ^ k) mod 64)%N.
Proof.
  change 63%N with (N.ones 6). rewrite N.land_ones, N.shiftr_div_pow2. reflexivity.
Qed.

Lemma byte_of_to_N (a : byte) : Base64.byte_of (Byte.to_N a) = a.
Proof. unfold Base64.byte_of. now rewrite Byte.of_to_N. Qed.

Lemma split3 (a b c : N) :
  (a < 256 -> b < 256 -> c < 256 ->
   let n := a * 65536 + b * 256 + c in
   let n1 := (n / 2 ^ 18) mod 64 in
   let n2 := (n / 2 ^ 12) mod 64 in
   let n3 := (n / 2 ^ 6) mod 64 in
   let n4 := (n / 2 ^ 0) mod 64 in
   n1 * 4 + n2 / 16 = a /\ (n2 mod 16) * 16 + n3 / 4 = b /\ (n3 mod 4) * 64 + n4 = c)%N.
Proof.
  intros Ha Hb Hc. cbv zeta.
  change (2 ^ 18)%N with 262144%N. change (2 ^ 12)%N with 4096%N.
  change (2 ^ 6)%N with 64%N. change (2 ^ 0)%N with 1%N.
  zify. Z.to_euclidean_division_equations. lia.
Qed.

Lemma land63 (n : N) : N.land n 63 = ((n / 2 ^ 0) mod 64)%N.
Proof.
  change 63%N with (N.ones 6). rewrite N.land_ones. change (2 ^ 0)%N with 1%N.
  now rewrite N.div_1_r.
Qed.

Lemma pack2 (a b : byte) :
  N.lor (N.shiftl (Byte.to_N a) 16) (N.shiftl (Byte.to_N b) 8)
  = (Byte.to_N a * 65536 + Byte.to_N b * 256 + 0)%N.
Proof.
  pose proof (pack3 a b x00) as H. cbn [Byte.to_N] in H.
  rewrite N.lor_0_r in H. exact H.
Qed.

Lemma pack1 (a : byte) :
  N.shiftl (Byte.to_N a) 16 = (Byte.to_N a * 65536 + 0 * 256 + 0)%N.
Proof. rewrite N.shiftl_mul_pow2. change (2 ^ 16)%N with 65536%N. lia. Qed.

(** Decoding the encoding gives the octets back. *)
Lemma decode_encode (bs : bytes) : Base64.decode (Base64.encode bs) = Some bs.
Proof.
  induction bs as [| a | a b | a b c rest IH] using triples_ind.
  - reflexivity.
  - cbn [Base64.encode]. cbv zeta. rewrite pack1.
    cbn [Base64.decode].
    rewrite !(proj1 (unsextet_sextet _)), !group.
    destruct (split3 (Byte.to_N a) 0 0 (to_N_lt a)) as (E1 & _); [lia | lia |].
    cbv zeta in E1. rewrite E1, byte_of_to_N. reflexivity.
  - cbn [Base64.encode]. cbv zeta. rewrite pack2.
    cbn [Base64.decode].
    rewrite !(proj1 (unsextet_sextet _)), !(proj2 (unsextet_sextet _)), !group.
    destruct (split3 (Byte.to_N a) (Byte.to_N b) 0 (to_N_lt a) (to_N_lt b))
      as (E1 & E2 & _); [lia |].
    cbv zeta in E1, E2. rewrite E1, E2, !byte_of_to_N. reflexivity.
  - cbn [Base64.encode]. cbv zeta. rewrite pack3.
    cbn [Base64.decode].
    rewrite !(proj1 (unsextet_sextet _)), !(proj2 (unsextet_sextet _)), !group, land63.
    rewrite IH.
    destruct (split3 (Byte.to_N a) (Byte.to_N b) (Byte.to_N c)
                (to_N_lt a) (to_N_lt b) (to_N_lt c)) as (E1 & E2 & E3).
    cbv zeta in E1, E2, E3. rewrite E1, E2, E3, !byte_of_to_N. reflexivity.
Qed.

(** ** Capture *)

Lemma get_frames_loop_spec (im : Imaging) (rs : list (Capture.reading im)) :
  Capture.get_frames_loop im rs
  = map (fun r => {| mime_type := "image/jpeg";
                     data := PyStr (Base64.encode (Capture.frame_jpeg im (Capture.frame r))) |})
        (Capture.take_while Capture.usable rs).
Proof.
  induction rs as [|r rs IH]; [reflexivity |].
  cbn [Capture.get_frames_loop Capture.take_while].
  unfold Capture._get_frame, Capture.usable.
  destruct (Capture.ret r); cbn; [| reflexivity].
  destruct (Capture.key r =? 27)%Z; cbn; [reflexivity |].
  now rewrite IH.
Qed.

Lemma get_screen_spec (im : Imaging) (grabs : list bytes) :
  Capture.get_screen im grabs
  = map (fun img => {| mime_type := "image/jpeg";
                       data := PyStr (Base64.encode (save_jpeg im img)) |})
        (Capture.opened_images im grabs).
Proof.
  induction grabs as [|g grabs IH]; [reflexivity |].
  cbn [Capture.get_screen Capture.opened_images]. unfold Capture._get_screen.
  destruct (Image_open im g); cbn; [now rewrite IH | reflexivity].
Qed.

(** C1, as the code has it: the camera and the screen producers enqueue the
    base64 text of the JPEG octets under ["image/jpeg"], for every frame up
    to the first failed read or ESC key and for every grab Pillow opens;
    the microphone producer enqueues each chunk as the raw [bytes] object
    under ["audio/pcm"], without encoding it. *)
Theorem capture_payloads (im : Imaging) (rs : list (Capture.reading im))
  (grabs chunks : list bytes) :
  Capture.get_frames im true rs
  = map (fun r => {| mime_type := "image/jpeg";
                     data := PyStr (Base64.encode (Capture.frame_jpeg im (Capture.frame r))) |})
        (Capture.take_while Capture.usable rs)
  /\ Capture.get_frames im false rs = []
  /\ Capture.get_screen im grabs
     = map (fun img => {| mime_type := "image/jpeg";
                          data := PyStr (Base64.encode (save_jpeg im img)) |})
           (Capture.opened_images im grabs)
  /\ Capture.listen_audio chunks
     = map (fun chunk => {| mime_type := "audio/pcm"; data := PyBytes chunk |}) chunks.
Proof.
  repeat split.
  - apply get_frames_loop_spec.
  - apply get_screen_spec.
Qed.

(** C1 fails for the microphone: the chunk [00 01 02] is enqueued as those
    three octets, not as its base64 text ["AAEC"]. *)
Lemma microphone_chunk_is_raw :
  exists p, In p (Capture.listen_audio [[x00; x01; x02]])
    /\ data p <> Base64.b64encode_decode [x00; x01; x02]
    /\ octets (data p) <> octets (Base64.b64encode_decode [x00; x01; x02]).
Proof.
  eexists. split; [left; reflexivity |]. split; cbn; discriminate.
Qed.

(** ** The atomic actions of the loop *)

(** Case analysis on the guards of [exec] in a hypothesis [exec a l = Some _]. *)
Ltac crack H :=
  repeat match type of H with
         | (if ?c then _ else _) = _ => destruct c eqn:?
         | match ?x with _ => _ end = _ => destruct x eqn:?
         end;
  try discriminate H; inversion H; subst; clear H.

Section Actions.
Import Loop.

(** No action assigns [video_mode]. *)
Lemma exec_video_mode a l l' effs :
  exec a l = Some (l', effs) -> video_mode l' = video_mode l.
Proof. intros H. destruct a; cbn in H; crack H; reflexivity. Qed.

Lemma perform_video_mode acts l : video_mode (perform acts l) = video_mode l.
Proof.
  revert l. induction acts as [|a acts IH]; intros l; [reflexivity |].
  cbn [perform]. destruct (exec a l) as [[l1 e1]|] eqn:E; [| apply IH].
  rewrite IH. eapply exec_video_mode, E.
Qed.

(** Only [Connect] assigns [session], and it stores a session. *)
Lemma exec_session_some a l l' effs s :
  session l = Some s -> exec a l = Some (l', effs) -> is_connect a = false ->
  session l' = Some s.
Proof.
  intros Hs H Hc. destruct a; cbn in H, Hc; try discriminate Hc; crack H; exact Hs.
Qed.

(** What [blob_of] builds: the mime type is copied, the data is what the
    bytes field holds. *)
Lemma blob_of_fields msg b :
  blob_of msg = Some b ->
  blob_mime_type b = mime_type msg /\ held (data msg) = Some (blob_data b).
Proof.
  unfold blob_of. destruct (held (data msg)) as [x|]; [| discriminate].
  intros H. inversion H; subst. split; reflexivity.
Qed.

(** One iteration of [send_realtime] with a session: the head of the queue
    leaves it and is sent once, as the blob built from it. *)
Lemma send_realtime_step l s msg q b :
  session l = Some s -> out_queue l = msg :: q -> blob_of msg = Some b ->
  exists l', exec SendRealtime l = Some (l', [Sent b]) /\ out_queue l' = q.
Proof.
  intros Hs Hq Hb. cbn. rewrite Hq, Hs, Hb. eexists. split; reflexivity.
Qed.

(** The outbound queue under one action: what is taken leaves at the head
    and is sent, what was put joins at the tail. *)
Lemma exec_out_queue a l l' effs s :
  session l = Some s -> is_connect a = false -> exec a l = Some (l', effs) ->
  exists taken,
    out_queue l ++ puts [a] = taken ++ out_queue l'
    /\ length taken = length (List.filter Text.is_send [a])
    /\ Forall2 (fun msg b => blob_of msg = Some b) taken (sent effs).
Proof.
  intros Hs Hc H. destruct a; cbn in H, Hc; try discriminate Hc.
  - crack H. exists []. cbn. repeat split. constructor.
  - destruct (out_queue l) as [|msg q] eqn:Q; [discriminate |].
    rewrite Hs in H. destruct (blob_of msg) as [b|] eqn:B; [| discriminate].
    inversion H; subst. exists [msg]. cbn. rewrite app_nil_r.
    repeat split. repeat constructor. exact B.
  - crack H. exists []. cbn. rewrite app_nil_r. repeat split. constructor.
  - crack H; exists []; cbn; rewrite app_nil_r; repeat split; constructor.
  - crack H; exists []; cbn; rewrite app_nil_r; repeat split; constructor.
  - crack H; exists []; cbn; rewrite app_nil_r; repeat split; constructor.
Qed.

Lemma puts_cons a acts : puts (a :: acts) = puts [a] ++ puts acts.
Proof. unfold puts. cbn. now rewrite app_nil_r. Qed.

Lemma received_cons a acts : received (a :: acts) = received [a] ++ received acts.
Proof. unfold received. cbn. now rewrite app_nil_r. Qed.

Lemma sent_app e1 e2 : sent (e1 ++ e2) = sent e1 ++ sent e2.
Proof. unfold sent. apply flat_map_app. Qed.

Lemma wrote_app e1 e2 : wrote (e1 ++ e2) = wrote e1 ++ wrote e2.
Proof. unfold wrote. apply flat_map_app. Qed.

(** The same along a whole schedule. *)
Lemma run_actions_out_queue acts : forall l l' effs s,
  session l = Some s -> existsb is_connect acts = false ->
  run_actions acts l = Some (l', effs) ->
  exists taken,
    out_queue l ++ puts acts = taken ++ out_queue l'
    /\ length taken = length (List.filter Text.is_send acts)
    /\ Forall2 (fun msg b => blob_of msg = Some b) taken (sent effs).
Proof.
  induction acts as [|a acts IH]; intros l l' effs s Hs Hc H.
  - inversion H; subst. exists []. cbn. rewrite app_nil_r. repeat split. constructor.
  - cbn [existsb] in Hc. apply orb_false_iff in Hc as [Ha Hc].
    cbn [run_actions] in H.
    destruct (exec a l) as [[l1 e1]|] eqn:E1; [| discriminate].
    destruct (run_actions acts l1) as [[l2 e2]|] eqn:E2; [| discriminate].
    inversion H; subst.
    pose proof (exec_session_some _ _ _ _ _ Hs E1 Ha) as Hs1.
    destruct (IH _ _ _ _ Hs1 Hc E2) as (t2 & Q2 & L2 & F2).
    destruct (exec_out_queue _ _ _ _ _ Hs Ha E1) as (t1 & Q1 & L1 & F1).
    exists (t1 ++ t2). split; [| split].
    + rewrite puts_cons, app_assoc, Q1, <- !app_assoc. now rewrite Q2.
    + change (a :: acts) with ([a] ++ acts).
      rewrite List.filter_app, !length_app. lia.
    + rewrite sent_app. now apply Forall2_app.
Qed.

(** Each step of [play_audio] writes one chunk. *)
Lemma run_actions_wrote_length acts : forall l l' effs,
  run_actions acts l = Some (l', effs) ->
  length (wrote effs) = length (List.filter Text.is_play acts).
Proof.
  induction acts as [|a acts IH]; intros l l' effs H.
  - inversion H; subst. reflexivity.
  - cbn [run_actions] in H.
    destruct (exec a l) as [[l1 e1]|] eqn:E1; [| discriminate].
    destruct (run_actions acts l1) as [[l2 e2]|] eqn:E2; [| discriminate].
    inversion H; subst. rewrite wrote_app, length_app, (IH _ _ _ E2).
    change (a :: acts) with ([a] ++ acts). rewrite List.filter_app, length_app.
    f_equal. clear E2 IH H. destruct a; cbn in E1; crack E1; reflexivity.
Qed.

(** The playback queue under one action of a turn. *)
Lemma exec_audio_in_queue a l l' effs :
  ends_turn a = false -> exec a l = Some (l', effs) ->
  audio_in_queue l ++ received [a] = wrote effs ++ audio_in_queue l'.
Proof.
  intros Hc H. destruct a as [s | m | | st | r | |];
    cbn in H, Hc; try discriminate Hc; unfold received; cbn [flat_map];
    crack H; cbn; rewrite ?app_nil_r; try reflexivity; try congruence.
Qed.

Lemma run_actions_audio_in_queue acts : forall l l' effs,
  existsb ends_turn acts = false -> run_actions acts l = Some (l', effs) ->
  audio_in_queue l ++ received acts = wrote effs ++ audio_in_queue l'.
Proof.
  induction acts as [|a acts IH]; intros l l' effs Hc H.
  - inversion H; subst. cbn. now rewrite app_nil_r.
  - cbn [existsb] in Hc. apply orb_false_iff in Hc as [Ha Hc].
    cbn [run_actions] in H.
    destruct (exec a l) as [[l1 e1]|] eqn:E1; [| discriminate].
    destruct (run_actions acts l1) as [[l2 e2]|] eqn:E2; [| discriminate].
    inversion H; subst.
    rewrite received_cons, wrote_app, app_assoc.
    rewrite (exec_audio_in_queue _ _ _ _ Ha E1), <- !app_assoc.
    f_equal. exact (IH _ _ _ Hc E2).
Qed.

Lemma run_actions_app a1 a2 l :
  run_actions (a1 ++ a2) l
  = match run_actions a1 l with
    | None => None
    | Some (l1, e1) =>
        match run_actions a2 l1 with
        | None => None
        | Some (l2, e2) => Some (l2, e1 ++ e2)
        end
    end.
Proof.
  revert l. induction a1 as [|a a1 IH]; intros l; cbn [run_actions app].
  - destruct (run_actions a2 l) as [[l2 e2]|]; reflexivity.
  - destruct (exec a l) as [[l1 e1]|]; [| reflexivity].
    rewrite IH. destruct (run_actions a1 l1) as [[l2 e2]|]; [| reflexivity].
    destruct (run_actions a2 l2) as [[l3 e3]|]; [| reflexivity].
    now rewrite app_assoc.
Qed.

Lemma drain_nil {A} (q : list A) : drain q = [].
Proof. induction q as [|x q IH]; [reflexivity | exact IH]. Qed.

End Actions.

(** ** run *)

Section Run.
Import Loop.

(** C3, as the code has it: once connected, [run] starts [listen_audio] and
    [play_audio] for every loop; it starts [get_frames] exactly when
    [video_mode] is ["camera"] and [get_screen] exactly when it is
    ["screen"], hence at most one of the two, and none for any other mode. *)
Theorem run_starts_tasks (s : Session) (l : AudioLoop) :
  let ts := snd (run s l) in
  started T_listen_audio ts = true
  /\ started T_play_audio ts = true
  /\ started T_get_frames ts = String.eqb (video_mode l) "camera"
  /\ started T_get_screen ts = String.eqb (video_mode l) "screen"
  /\ video_producers ts
     = (if String.eqb (video_mode l) "camera" || String.eqb (video_mode l) "screen"
        then 1 else 0).
Proof.
  cbn. unfold run_tasks, started, video_producers. cbn.
  destruct (String.eqb (video_mode l) "camera") eqn:Ec.
  - apply String.eqb_eq in Ec. rewrite Ec. cbn. repeat split.
  - destruct (String.eqb (video_mode l) "screen"); cbn; repeat split.
Qed.

(** C3 fails for the mode ["none"], which the command line accepts: [run]
    starts neither video producer. *)
Lemma run_mode_none_no_video :
  video_producers (snd (run Sample.live (__init__ "none"))) <> 1
  /\ started T_get_frames (snd (run Sample.live (__init__ "none"))) = false
  /\ started T_get_screen (snd (run Sample.live (__init__ "none"))) = false.
Proof. repeat split. cbn. discriminate. Qed.

End Run.

(** ** send_realtime *)

Section SendRealtime.
Import Loop.

(** C4, as the code has it: with a session in place and no reconnect, along
    any schedule the messages taken from [out_queue] are the enqueued ones
    in the order of their puts, those not yet taken are still queued, and
    each one taken is sent exactly once, in that order, as a blob with the
    same [mime_type].  The blob's data is the dequeued [data] when that is a
    [bytes] object (microphone chunks); for a [str] (camera and screen
    payloads) it is the base64-decoding of it, that is the JPEG octets, not
    the dequeued text. *)
Theorem send_realtime_forwards_fifo acts l l' effs s (bs : bytes) :
  session l = Some s ->
  existsb is_connect acts = false ->
  run_actions acts l = Some (l', effs) ->
  (exists taken,
      out_queue l ++ puts acts = taken ++ out_queue l'
      /\ length taken = length (List.filter Text.is_send acts)
      /\ Forall2 (fun msg b =>
                    blob_mime_type b = mime_type msg
                    /\ held (data msg) = Some (blob_data b))
                 taken (sent effs))
  /\ held (PyBytes bs) = Some bs
  /\ held (Base64.b64encode_decode bs) = Some bs.
Proof.
  intros Hs Hc H. split; [| split; [reflexivity | apply decode_encode]].
  destruct (run_actions_out_queue acts l l' effs s Hs Hc H) as (taken & Q & L & F).
  exists taken. split; [exact Q |]. split; [exact L |].
  eapply Forall2_impl; [exact F |]. intros msg b Hb. now apply blob_of_fields.
Qed.

Lemma send_realtime_forwards_fifo_witness :
  (exists taken,
      out_queue Sample.connected ++ puts Sample.outbound = taken ++ [Sample.mic2]
      /\ length taken = length (List.filter Text.is_send Sample.outbound)
      /\ Forall2 (fun msg b =>
                    blob_mime_type b = mime_type msg
                    /\ held (data msg) = Some (blob_data b))
                 taken
                 (sent [Sent {| blob_data := [x01; x00]; blob_mime_type := "audio/pcm" |};
                        Sent {| blob_data := [xff; xd8; xff];
                                blob_mime_type := "image/jpeg" |}]))
  /\ held (PyBytes [xff; xd8; xff]) = Some [xff; xd8; xff]
  /\ held (Base64.b64encode_decode [xff; xd8; xff]) = Some [xff; xd8; xff].
Proof.
  exact (send_realtime_forwards_fifo Sample.outbound Sample.connected
           {| video_mode := "camera"; audio_in_queue := [];
              out_queue := [Sample.mic2]; session := Some Sample.live;
              audio_stream := Unset |}
           [Sent {| blob_data := [x01; x00]; blob_mime_type := "audio/pcm" |};
            Sent {| blob_data := [xff; xd8; xff]; blob_mime_type := "image/jpeg" |}]
           Sample.live [xff; xd8; xff] eq_refl eq_refl eq_refl).
Defined.

(** C4 fails for an image payload: the frame is queued with the text [/9j/]
    as its data, and the blob sent for it holds the three octets ff d8 ff. *)
Lemma image_blob_is_decoded :
  data Sample.frame1 = PyStr "/9j/"
  /\ exec SendRealtime
       {| video_mode := "camera"; audio_in_queue := [];
          out_queue := [Sample.frame1]; session := Some Sample.live;
          audio_stream := Unset |}
     = Some (Sample.connected,
             [Sent {| blob_data := [xff; xd8; xff]; blob_mime_type := "image/jpeg" |}])
  /\ PyBytes [xff; xd8; xff] <> data Sample.frame1
  /\ [xff; xd8; xff] <> octets (data Sample.frame1).
Proof. repeat split; discriminate. Qed.

End SendRealtime.

(** ** receive_audio and play_audio *)

Section Playback.
Import Loop.


(** C7, as the code has it: within a turn that starts on an empty playback
    queue, every non-empty data chunk received is enqueued and each step of
    [play_audio] writes the oldest queued chunk, so after [k] such steps the
    chunks written are the first [k] chunks received, in order, and the
    queue holds the rest; when the turn ends the rest is dropped and the
    queue is empty. *)
Theorem playback_prefix_of_turn acts l l' effs :
  audio_in_queue l = [] ->
  existsb ends_turn acts = false ->
  run_actions acts l = Some (l', effs) ->
  wrote effs = firstn (length (List.filter Text.is_play acts)) (received acts)
  /\ audio_in_queue l' = skipn (length (List.filter Text.is_play acts)) (received acts)
  /\ exists l1,
      run_actions (acts ++ [TurnEnd]) l = Some (l1, effs)
      /\ audio_in_queue l1 = []
      /\ exec Play l1 = None.
Proof.
  intros Hq Hc H.
  pose proof (run_actions_audio_in_queue acts l l' effs Hc H) as Hinv.
  pose proof (run_actions_wrote_length acts l l' effs H) as Hlen.
  rewrite Hq in Hinv. cbn [app] in Hinv. rewrite <- Hlen, Hinv.
  split; [| split].
  - rewrite firstn_app, Nat.sub_diag, firstn_all. cbn. now rewrite app_nil_r.
  - rewrite skipn_app, Nat.sub_diag, skipn_all. reflexivity.
  - rewrite run_actions_app, H. cbn. eexists. split; [now rewrite app_nil_r |].
    cbn. rewrite drain_nil. split; reflexivity.
Qed.

Lemma playback_prefix_of_turn_witness :
  wrote [Wrote Sample.chunk_a]
  = firstn (length (List.filter Text.is_play Sample.turn)) (received Sample.turn)
  /\ [Sample.chunk_b]
     = skipn (length (List.filter Text.is_play Sample.turn)) (received Sample.turn)
  /\ exists l1,
      run_actions (Sample.turn ++ [TurnEnd]) Sample.connected
      = Some (l1, [Wrote Sample.chunk_a])
      /\ audio_in_queue l1 = []
      /\ exec Play l1 = None.
Proof.
  exact (playback_prefix_of_turn Sample.turn Sample.connected
           {| video_mode := "camera"; audio_in_queue := [Sample.chunk_b];
              out_queue := []; session := Some Sample.live; audio_stream := Unset |}
           [Wrote Sample.chunk_a] eq_refl eq_refl eq_refl).
Defined.

(** C7 fails when a turn ends with audio still queued: two chunks are
    received, one is written, the other is dropped.  It also fails for a
    response whose data is the empty [bytes] object: that one is not
    enqueued at all. *)
Lemma unplayed_audio_is_dropped :
  (exists l1 effs,
      run_actions (Sample.turn ++ [TurnEnd]) Sample.connected = Some (l1, effs)
      /\ received Sample.turn = [Sample.chunk_a; Sample.chunk_b]
      /\ wrote effs = [Sample.chunk_a]
      /\ wrote effs <> received Sample.turn)
  /\ exec (Receive (Response (Some []) None)) Sample.connected
     = Some (Sample.connected, []).
Proof.
  split; [| reflexivity].
  do 2 eexists. split; [reflexivity |]. repeat split. discriminate.
Qed.

End Playback.

(** ** stop, and the wrapper around the singleton *)

Section Singleton.
Import Loop Wrapper.

Lemma stop_fields e l :
  exists out,
    stop e l
    = (true,
       {| video_mode := video_mode l;
          audio_in_queue := [];
          out_queue := [];
          session := None;
          audio_stream := match audio_stream l with
                          | Unset => Unset
                          | Attr _ => Attr None
                          end |},
       out).
Proof.
  unfold stop. rewrite !drain_nil.
  destruct (audio_stream l) as [|[st|]], (session l); eexists; reflexivity.
Qed.

Lemma fresh_unused (hp : gmap nat AudioLoop) : hp !! fresh (dom hp) = None.
Proof. apply not_elem_of_dom, is_fresh. Qed.

Lemma ensure_existing mode m a :
  _audio_loop m = Some a -> _ensure_audio_loop mode m = (a, m).
Proof. intros H. unfold _ensure_audio_loop. now rewrite H. Qed.

Lemma ensure_new mode m :
  _audio_loop m = None ->
  _ensure_audio_loop mode m
  = (fresh (dom (heap m)),
     {| heap := <[fresh (dom (heap m)) := __init__ mode]> (heap m);
        _audio_loop := Some (fresh (dom (heap m)));
        calls := calls m |}).
Proof. intros H. unfold _ensure_audio_loop. now rewrite H. Qed.

(** [_ensure_audio_loop] leaves the global set, on an object of the heap. *)
Lemma ensure_sets mode m :
  _audio_loop (snd (_ensure_audio_loop mode m)) = Some (fst (_ensure_audio_loop mode m)).
Proof.
  unfold _ensure_audio_loop. destruct (_audio_loop m) eqn:E; cbn; [exact E | reflexivity].
Qed.

(** An object that exists keeps its [video_mode] through [_ensure_audio_loop]. *)
Lemma ensure_mode_at mode m a v :
  mode_at a m = Some v -> mode_at a (snd (_ensure_audio_loop mode m)) = Some v.
Proof.
  intros H. unfold _ensure_audio_loop. destruct (_audio_loop m); [exact H |].
  cbn. unfold mode_at in *. cbn.
  destruct (decide (fresh (dom (heap m)) = a)) as [<- | Hne].
  - rewrite fresh_unused in H. discriminate.
  - now rewrite lookup_insert_ne.
Qed.

Lemma invoke_mode_at mt acts b m a :
  mode_at a (invoke mt acts b m) = mode_at a m.
Proof.
  unfold mode_at, invoke. cbn.
  destruct (decide (b = a)) as [-> | Hne].
  - rewrite lookup_alter_eq. destruct (heap m !! a); cbn; [| reflexivity].
    now rewrite perform_video_mode.
  - now rewrite lookup_alter_ne.
Qed.

Lemma stop_mode_at e m a v :
  mode_at a m = Some v -> mode_at a (snd (GEMINI_STOP e m)) = Some v.
Proof.
  intros H. unfold GEMINI_STOP.
  destruct (_audio_loop m) as [b|]; [| exact H].
  destruct (heap m !! b) as [obj|] eqn:Eb; [| exact H].
  destruct (stop_fields e obj) as [out ->]. cbn. unfold mode_at in *. cbn.
  destruct (decide (b = a)) as [-> | Hne].
  - rewrite lookup_insert_eq. rewrite Eb in H. exact H.
  - now rewrite lookup_insert_ne.
Qed.

(** Every wrapper call other than the stop is [_ensure_audio_loop] followed
    by a method call on the object it returns. *)
Lemma apply_op_shape o m :
  is_stop o = false ->
  exists mt acts,
    apply_op o m
    = invoke mt acts (fst (_ensure_audio_loop (op_mode o) m))
        (snd (_ensure_audio_loop (op_mode o) m)).
Proof.
  intros Hs. destruct o; try discriminate Hs; cbn;
    unfold GEMINI_RUN, GEMINI_SEND_TEXT, GEMINI_GET_FRAMES, GEMINI_GET_SCREEN,
      GEMINI_SEND_REALTIME, GEMINI_LISTEN_AUDIO, GEMINI_RECEIVE_AUDIO, GEMINI_PLAY_AUDIO;
    match goal with
    | |- context [_ensure_audio_loop ?md m] =>
        destruct (_ensure_audio_loop md m) as [loop m1]
    end; cbn; do 2 eexists; reflexivity.
Qed.

(** No wrapper call changes the [video_mode] of an object that exists. *)
Lemma apply_op_mode_at o m a v :
  mode_at a m = Some v -> mode_at a (apply_op o m) = Some v.
Proof.
  intros H. destruct (is_stop o) eqn:Es.
  - destruct o; try discriminate Es. cbn. now apply stop_mode_at.
  - destruct (apply_op_shape o m Es) as (mt & acts & ->).
    rewrite invoke_mode_at. now apply ensure_mode_at.
Qed.

Lemma apply_ops_mode_at os : forall m a v,
  mode_at a m = Some v -> mode_at a (apply_ops os m) = Some v.
Proof.
  induction os as [|o os IH]; intros m a v H; [exact H |].
  cbn. apply IH. now apply apply_op_mode_at.
Qed.

(** Without a stop the global keeps pointing at the same object. *)
Lemma apply_op_global o m a :
  is_stop o = false -> _audio_loop m = Some a -> _audio_loop (apply_op o m) = Some a.
Proof.
  intros Es H. destruct (apply_op_shape o m Es) as (mt & acts & ->).
  rewrite (ensure_existing _ _ _ H). cbn. exact H.
Qed.

Lemma apply_ops_global os : forall m a,
  existsb is_stop os = false -> _audio_loop m = Some a ->
  _audio_loop (apply_ops os m) = Some a.
Proof.
  induction os as [|o os IH]; intros m a Hs H; [exact H |].
  cbn in Hs. apply orb_false_iff in Hs as [Ho Hs].
  cbn. apply IH; [exact Hs |]. now apply apply_op_global.
Qed.

(** The global never holds an address without an object. *)
Lemma wf_imported : wf imported.
Proof. exact I. Qed.

Lemma wf_apply_op o m : wf m -> wf (apply_op o m).
Proof.
  intros Hwf. destruct (is_stop o) eqn:Es.
  - destruct o; try discriminate Es. cbn. unfold GEMINI_STOP.
    destruct (_audio_loop m) as [b|] eqn:E; [| exact Hwf].
    destruct (heap m !! b) as [obj|]; [| exact I].
    destruct (stop_fields e obj) as [out ->]. exact I.
  - destruct (apply_op_shape o m Es) as (mt & acts & ->).
    unfold wf, invoke. cbn. rewrite ensure_sets.
    unfold _ensure_audio_loop, wf in *.
    destruct (_audio_loop m) as [b|]; cbn.
    + destruct Hwf as [x Hx]. rewrite lookup_alter_eq, Hx. eexists; reflexivity.
    + rewrite lookup_alter_eq, lookup_insert_eq. eexists; reflexivity.
Qed.

(** [GEMINI_STOP] always leaves the global at [None]. *)
Lemma stop_clears_global e m : _audio_loop (snd (GEMINI_STOP e m)) = None.
Proof.
  unfold GEMINI_STOP. destruct (_audio_loop m) as [b|] eqn:E; [| exact E].
  destruct (heap m !! b) as [obj|]; [| reflexivity].
  destruct (stop_fields e obj) as [out ->]. reflexivity.
Qed.

End Singleton.

Section Wrapped.
Import Loop Wrapper.

Lemma exec_queues_incl a l l' effs :
  exec a l = Some (l', effs) ->
  incl (out_queue l') (out_queue l ++ puts [a])
  /\ incl (audio_in_queue l') (audio_in_queue l ++ received [a]).
Proof.
  intros H. destruct a; cbn in H; unfold received, puts; cbn [flat_map];
    crack H; cbn; rewrite ?app_nil_r, ?drain_nil;
    split; try apply incl_refl; try apply incl_nil_l; try (apply incl_tl, incl_refl).
Qed.

Lemma perform_queues_incl acts : forall l,
  incl (out_queue (perform acts l)) (out_queue l ++ puts acts)
  /\ incl (audio_in_queue (perform acts l)) (audio_in_queue l ++ received acts).
Proof.
  induction acts as [|a acts IH]; intros l.
  - cbn. rewrite !app_nil_r. split; apply incl_refl.
  - cbn [perform]. rewrite puts_cons, received_cons.
    destruct (exec a l) as [[l1 e1]|] eqn:E.
    + destruct (exec_queues_incl _ _ _ _ E) as [Ho Ha].
      destruct (IH l1) as [Io Ia]. split.
      * eapply incl_tran; [exact Io |]. rewrite app_assoc.
        apply incl_app; [apply incl_appl, Ho | apply incl_appr, incl_refl].
      * eapply incl_tran; [exact Ia |]. rewrite app_assoc.
        apply incl_app; [apply incl_appl, Ha | apply incl_appr, incl_refl].
    + destruct (IH l) as [Io Ia]. split.
      * eapply incl_tran; [exact Io |].
        apply incl_app; [apply incl_appl, incl_refl | apply incl_appr, incl_appr, incl_refl].
      * eapply incl_tran; [exact Ia |].
        apply incl_app; [apply incl_appl, incl_refl | apply incl_appr, incl_appr, incl_refl].
Qed.

(** C5, as the code has it.  [stop] returns [True].  Before its first await
    it empties both queues and sets [audio_stream] to [None] if the attribute
    had been assigned (it stays absent if it never was: [__init__] does not
    create it); after awaiting the close of the session it sets [session] to
    [None].  With no other task running during its awaits this is the state
    at return.  Tasks that are still alive may enqueue during the awaits, so
    at return the queues hold only what was enqueued meanwhile, and nothing
    from before.  After [GEMINI_STOP] the global is [None]: the next wrapper
    call other than a stop builds a new loop, at an address not used before,
    with the mode it passes; a further [GEMINI_STOP] builds none. *)
Theorem stop_cleans_up (e : StopEnv) (during_close during_gather : list action)
  (l : AudioLoop) (m : state) (mode : string) (o : op) :
  (let '(ok, l', _) := Concurrent.stop_interleaved e during_close during_gather l in
   ok = true
   /\ incl (out_queue l') (puts (during_close ++ during_gather))
   /\ incl (audio_in_queue l') (received (during_close ++ during_gather)))
  /\ Concurrent.stop_interleaved e [] [] l = stop e l
  /\ (let '(ok, l', _) := stop e l in
      ok = true
      /\ audio_in_queue l' = [] /\ out_queue l' = [] /\ session l' = None
      /\ audio_stream l' = match audio_stream l with
                           | Unset => Unset
                           | Attr _ => Attr None
                           end)
  /\ (let m' := snd (GEMINI_STOP e m) in
      _audio_loop m' = None
      /\ let '(a, m'') := _ensure_audio_loop mode m' in
         heap m' !! a = None
         /\ heap m'' !! a = Some (__init__ mode)
         /\ _audio_loop m'' = Some a)
  /\ (let m' := snd (GEMINI_STOP e m) in
      if is_stop o then apply_op o m' = m'
      else exists a,
          _audio_loop (apply_op o m') = Some a
          /\ heap m' !! a = None
          /\ mode_at a (apply_op o m') = Some (op_mode o)).
Proof.
  pose proof (stop_clears_global e m) as Hnone.
  split; [| split; [| split; [| split]]].
  - unfold Concurrent.stop_interleaved. cbn [session audio_in_queue out_queue].
    rewrite !drain_nil.
    set (l1 := {| video_mode := video_mode l; audio_in_queue := [];
                  out_queue := []; session := session l; audio_stream := _ |}).
    assert (H2 : forall l2 : AudioLoop,
               incl (out_queue l2) (puts during_close) ->
               incl (audio_in_queue l2) (received during_close) ->
               incl (out_queue match List.filter app_task (task_names e) with
                               | [] => l2
                               | _ :: _ => perform during_gather l2
                               end) (puts (during_close ++ during_gather))
               /\ incl (audio_in_queue match List.filter app_task (task_names e) with
                                       | [] => l2
                                       | _ :: _ => perform during_gather l2
                                       end) (received (during_close ++ during_gather))).
    { intros l2 Ho Ha. unfold puts, received. rewrite !flat_map_app.
      fold (puts during_close) (puts during_gather)
        (received during_close) (received during_gather).
      destruct (List.filter app_task (task_names e)).
      - split; apply incl_appl; assumption.
      - destruct (perform_queues_incl during_gather l2) as [Io Ia]. split.
        + eapply incl_tran; [exact Io |].
          apply incl_app; [apply incl_appl, Ho | apply incl_appr, incl_refl].
        + eapply incl_tran; [exact Ia |].
          apply incl_app; [apply incl_appl, Ha | apply incl_appr, incl_refl]. }
    split; [reflexivity |].
    destruct (session l).
    + destruct (perform_queues_incl during_close l1) as [Io Ia].
      apply H2; [exact Io | exact Ia].
    + apply H2; apply incl_nil_l.
  - unfold Concurrent.stop_interleaved.
    destruct (stop_fields e l) as [out E]. rewrite E. cbn [snd perform].
    rewrite !drain_nil. cbn [session].
    assert (Hl : forall x y : AudioLoop,
               x = y -> match List.filter app_task (task_names e) with
                        | [] => x
                        | _ :: _ => x
                        end = y).
    { intros x y ->. now destruct (List.filter app_task (task_names e)). }
    f_equal. f_equal. apply Hl.
    destruct (session l), (audio_stream l) as [|[st|]]; reflexivity.
  - destruct (stop_fields e l) as [out ->]. cbn. repeat split.
  - cbn zeta. split; [exact Hnone |].
    rewrite (ensure_new mode _ Hnone). cbn.
    split; [apply fresh_unused |]. split; [apply lookup_insert_eq | reflexivity].
  - cbn zeta. destruct (is_stop o) eqn:Es.
    + destruct o; try discriminate Es. cbn [apply_op].
      unfold GEMINI_STOP at 1. now rewrite Hnone.
    + destruct (apply_op_shape o (snd (GEMINI_STOP e m)) Es) as (mt & acts & ->).
      rewrite (ensure_new _ _ Hnone). cbn [fst snd].
      eexists. split; [reflexivity |]. split; [apply fresh_unused |].
      rewrite invoke_mode_at. unfold mode_at. cbn. now rewrite lookup_insert_eq.
Qed.

(** C5 fails in three ways.  On a loop whose microphone was never opened,
    [stop] returns [True] and the attribute [audio_stream] is still absent,
    not [None].  On a connected loop, a microphone chunk put while [stop]
    awaits the close of the session is in [out_queue] when [stop] returns
    [True].  And a [GEMINI_STOP] that follows a [GEMINI_STOP] builds no loop:
    it leaves the module as it is, with the global [None]. *)
Lemma stop_cleanup_exceptions :
  (fst (fst (stop calm (__init__ "camera"))) = true
   /\ audio_stream (snd (fst (stop calm (__init__ "camera")))) <> Attr None
   /\ audio_stream (snd (fst (stop calm (__init__ "camera")))) = Unset)
  /\ (fst (fst (Concurrent.stop_interleaved calm [Put Sample.mic1] [] Sample.connected))
      = true
      /\ out_queue (snd (fst (Concurrent.stop_interleaved calm [Put Sample.mic1] []
                                Sample.connected)))
         = [Sample.mic1])
  /\ (apply_op (Stop calm) (snd (GEMINI_STOP calm Sample.running))
      = snd (GEMINI_STOP calm Sample.running)
      /\ _audio_loop (apply_op (Stop calm) (snd (GEMINI_STOP calm Sample.running)))
         = None).
Proof. repeat split. cbn. discriminate. Qed.

(** C8: with no loop created, [GEMINI_STOP] returns [True] and changes
    nothing: no [stop] is recorded and the global stays [None].  A second
    [GEMINI_STOP] after any first one is such a call. *)
Theorem stop_without_loop (e e1 e2 : StopEnv) (m m0 : state) :
  _audio_loop m = None ->
  GEMINI_STOP e m = (true, m)
  /\ calls (snd (GEMINI_STOP e m)) = calls m
  /\ _audio_loop (snd (GEMINI_STOP e m)) = None
  /\ GEMINI_STOP e2 (snd (GEMINI_STOP e1 m0)) = (true, snd (GEMINI_STOP e1 m0)).
Proof.
  intros H.
  assert (Hstop : forall e' m', _audio_loop m' = None -> GEMINI_STOP e' m' = (true, m')).
  { intros e' m' H'. unfold GEMINI_STOP. now rewrite H'. }
  rewrite (Hstop e m H). cbn. repeat split; [exact H |].
  apply Hstop, stop_clears_global.
Qed.

Lemma stop_without_loop_witness :
  GEMINI_STOP calm imported = (true, imported)
  /\ calls (snd (GEMINI_STOP calm imported)) = calls imported
  /\ _audio_loop (snd (GEMINI_STOP calm imported)) = None
  /\ GEMINI_STOP calm (snd (GEMINI_STOP calm Sample.running))
     = (true, snd (GEMINI_STOP calm Sample.running)).
Proof.
  exact (stop_without_loop calm calm calm imported Sample.running eq_refl).
Defined.

(** C9: once the global holds an object, [_ensure_audio_loop] returns it
    whatever mode it is given and changes nothing; through any later wrapper
    calls short of a stop the global keeps holding that object, and the
    object keeps the [video_mode] it was created with. *)
Theorem ensure_ignores_mode (m : state) (a : nat) (v mode : string) (os : list op) :
  _audio_loop m = Some a ->
  mode_at a m = Some v ->
  existsb is_stop os = false ->
  _ensure_audio_loop mode m = (a, m)
  /\ _audio_loop (apply_ops os m) = Some a
  /\ mode_at a (apply_ops os m) = Some v
  /\ fst (_ensure_audio_loop mode (apply_ops os m)) = a.
Proof.
  intros Hg Hv Hs.
  pose proof (apply_ops_global os m a Hs Hg) as Hg'.
  repeat split.
  - now apply ensure_existing.
  - exact Hg'.
  - now apply apply_ops_mode_at.
  - now rewrite (ensure_existing mode _ _ Hg').
Qed.

(** [GEMINI_GET_SCREEN] after [GEMINI_RUN(mode="camera")]: the loop is still
    the one at address 0 and its [video_mode] is still ["camera"]. *)
Lemma ensure_ignores_mode_witness :
  _ensure_audio_loop "screen" Sample.running = (0, Sample.running)
  /\ _audio_loop (apply_ops Sample.later Sample.running) = Some 0
  /\ mode_at 0 (apply_ops Sample.later Sample.running) = Some "camera"
  /\ fst (_ensure_audio_loop "screen" (apply_ops Sample.later Sample.running)) = 0.
Proof.
  exact (ensure_ignores_mode Sample.running 0 "camera" "screen" Sample.later
           eq_refl eq_refl eq_refl).
Defined.

End Wrapped.

(** ** The page and the API *)

Section FrontEnds.
Import Loop Wrapper.






End FrontEnds.

Section Endpoints.
Import Api.

(** C6: for each of the nine endpoints, a call that returns gives a reply
    whose status is ["success"] (for [/stop]: a call that returns [True],
    with the key set); a call that raises gives HTTP 500; and [/stop] gives
    HTTP 500 whenever [GEMINI_STOP] returns [False]. *)
Theorem endpoint_replies (e : endpoint) (getenv_key : option string) (c : ascii)
  (k msg now : string) (v : bool) :
  match e with
  | E_stop =>
      serve E_stop (Some (String c k)) (Returns true) now
      = Json "success" "Session ended successfully" now
      /\ status_code_of (serve E_stop getenv_key (Returns false) now) = 500
  | _ =>
      body_status (serve e getenv_key (Returns v) now) = Some "success"
      /\ status_code_of (serve e getenv_key (Returns v) now) = 200
  end
  /\ status_code_of (serve e getenv_key (Raises msg) now) = 500.
Proof.
  destruct e; cbn; unfold stop_gemini; cbn;
    try destruct (truthy getenv_key); cbn; repeat split.
Qed.

End Endpoints.

(** * Further properties of the code *)

(** ** The microphone payload *)

Section Microphone.

(** X1: no microphone payload is base64 text: for chunks that are not empty, as
    the chunks read from the stream are, the octets enqueued by
    [listen_audio] differ from the base64 text of the chunk. *)
Theorem microphone_payloads_never_base64 (chunks : list bytes) :
  Forall (fun chunk => chunk <> []) chunks ->
  Forall (fun p => exists chunk,
              In chunk chunks /\ data p = PyBytes chunk
              /\ mime_type p = "audio/pcm"
              /\ octets (data p) <> octets (Base64.b64encode_decode chunk))
         (Capture.listen_audio chunks).
Proof.
  intros H. unfold Capture.listen_audio. apply List.Forall_forall. intros p Hp.
  apply in_map_iff in Hp as (chunk & <- & Hin).
  exists chunk. cbn [data mime_type]. repeat split; [exact Hin |].
  apply raw_is_not_base64. rewrite List.Forall_forall in H. now apply H.
Qed.

Lemma microphone_payloads_never_base64_witness :
  Forall (fun p => exists chunk,
              In chunk [[x01; x00]; [x02; x00]] /\ data p = PyBytes chunk
              /\ mime_type p = "audio/pcm"
              /\ octets (data p) <> octets (Base64.b64encode_decode chunk))
         (Capture.listen_audio [[x01; x00]; [x02; x00]]).
Proof.
  apply (microphone_payloads_never_base64 [[x01; x00]; [x02; x00]]).
  repeat constructor; discriminate.
Defined.

End Microphone.

(** ** send_text *)

Section SendText.
Import Loop Text.

Lemma send_text_quits inputs :
  fst (send_text inputs) = existsb (fun i => is_quit (fst i)) inputs.
Proof.
  induction inputs as [|[text sess] rest IH]; [reflexivity |].
  cbn [send_text existsb fst]. destruct (is_quit text); [reflexivity |].
  destruct (send_text rest) as [q effs]. exact IH.
Qed.

Lemma or_dot_nonempty text : or_dot text <> EmptyString.
Proof. destruct text; discriminate. Qed.

(** X2: [send_text] sends, in order, the lines read before the first [q] or [Q]
    that found a session, an empty line as a single dot; it never sends an
    empty text, sends nothing read after the quit line, and is left exactly
    when a quit line was read. *)
Theorem send_text_sends (inputs : list (string * option Session)) :
  sent_texts (snd (send_text inputs))
  = map (fun i => or_dot (fst i)) (List.filter has_session (before_quit inputs))
  /\ Forall (fun t => t <> EmptyString) (sent_texts (snd (send_text inputs)))
  /\ fst (send_text inputs) = existsb (fun i => is_quit (fst i)) inputs.
Proof.
  split; [| split; [| apply send_text_quits]].
  - induction inputs as [|[text sess] rest IH]; [reflexivity |].
    cbn [send_text before_quit]. destruct (is_quit text); [reflexivity |].
    destruct (send_text rest) as [q effs]. cbn [snd] in *.
    unfold sent_texts in *.
    destruct sess; cbn [flat_map List.filter has_session snd fst map app];
      [now rewrite IH | exact IH].
  - induction inputs as [|[text sess] rest IH]; [constructor |].
    cbn [send_text]. destruct (is_quit text); [constructor |].
    destruct (send_text rest) as [q effs]. cbn [snd] in *.
    unfold sent_texts in *. destruct sess; cbn [flat_map app]; [| exact IH].
    constructor; [apply or_dot_nonempty | exact IH].
Qed.

End SendText.

(** ** The outbound queue *)

Section Outbound.
Import Loop Text.

Lemma exec_out_queue_bounded a l l' effs :
  exec a l = Some (l', effs) ->
  length (out_queue l) <= out_queue_maxsize ->
  length (out_queue l') <= out_queue_maxsize.
Proof.
  intros H Hb. destruct a; unfold exec in H.
  - inversion H; subst. cbn. unfold out_queue_maxsize. lia.
  - destruct (length (out_queue l) <? out_queue_maxsize)%nat eqn:E; [| discriminate].
    apply Nat.ltb_lt in E. inversion H; subst. cbn. rewrite length_app. cbn. lia.
  - destruct (out_queue l) as [|msg q] eqn:Q; [discriminate |].
    cbn in Hb.
    destruct (session l); [destruct (blob_of msg); [| discriminate] |];
      inversion H; subst; cbn; lia.
  - inversion H; subst. exact Hb.
  - crack H; exact Hb.
  - inversion H; subst. exact Hb.
  - crack H; exact Hb.
Qed.

(** X3: [out_queue] never holds more than five payloads, whatever the schedule. *)
Theorem out_queue_bounded acts l l' effs :
  length (out_queue l) <= 5 ->
  run_actions acts l = Some (l', effs) ->
  length (out_queue l') <= 5.
Proof.
  revert l l' effs. induction acts as [|a acts IH]; intros l l' effs Hb H.
  - inversion H; subst. exact Hb.
  - cbn [run_actions] in H.
    destruct (exec a l) as [[l1 e1]|] eqn:E1; [| discriminate].
    destruct (run_actions acts l1) as [[l2 e2]|] eqn:E2; [| discriminate].
    inversion H; subst.
    eapply IH; [| exact E2]. eapply exec_out_queue_bounded; eassumption.
Qed.

Lemma out_queue_bounded_witness :
  length (out_queue (perform (map Put Sample2.six) (__init__ "camera"))) <= 5.
Proof.
  apply (out_queue_bounded (map Put (firstn 5 Sample2.six)) (__init__ "camera")
           (perform (map Put Sample2.six) (__init__ "camera")) []).
  - cbn. lia.
  - reflexivity.
Defined.

(** X4: producers running without [send_realtime] fill the queue up to five
    payloads and then stall: of the payloads offered, only as many as there
    is room for are enqueued, in order. *)
Theorem producers_stall_when_full (ps : list payload) (l : AudioLoop) :
  out_queue (perform (map Put ps) l)
  = out_queue l ++ firstn (5 - length (out_queue l)) ps.
Proof.
  revert l. induction ps as [|p ps IH]; intros l.
  - cbn. rewrite firstn_nil. now rewrite app_nil_r.
  - cbn [map perform]. unfold exec.
    destruct (length (out_queue l) <? out_queue_maxsize)%nat eqn:E.
    + apply Nat.ltb_lt in E. unfold out_queue_maxsize in E.
      rewrite IH. cbn [out_queue]. rewrite length_app. cbn [length].
      replace (5 - length (out_queue l)) with (S (5 - (length (out_queue l) + 1))) by lia.
      cbn [firstn]. now rewrite <- app_assoc.
    + apply Nat.ltb_ge in E. unfold out_queue_maxsize in E.
      rewrite IH. replace (5 - length (out_queue l)) with 0 by lia.
      reflexivity.
Qed.

(** X5: while [self.session] is [None], [send_realtime] still takes messages off
    the queue but sends none of them: every message it takes is lost. *)
Theorem without_session_messages_are_lost acts l l' effs :
  session l = None ->
  existsb is_connect acts = false ->
  run_actions acts l = Some (l', effs) ->
  sent effs = []
  /\ session l' = None
  /\ length (out_queue l') + length (List.filter is_send acts)
     = length (out_queue l) + length (puts acts).
Proof.
  revert l l' effs. induction acts as [|a acts IH]; intros l l' effs Hs Hc H.
  - inversion H; subst. cbn. repeat split; try exact Hs; try lia.
  - cbn [existsb] in Hc. apply orb_false_iff in Hc as [Ha Hc].
    cbn [run_actions] in H.
    destruct (exec a l) as [[l1 e1]|] eqn:E1; [| discriminate].
    destruct (run_actions acts l1) as [[l2 e2]|] eqn:E2; [| discriminate].
    inversion H; subst. rewrite sent_app, puts_cons, length_app.
    assert (Hstep : sent e1 = [] /\ session l1 = None
                    /\ length (out_queue l1) + length (List.filter is_send [a])
                       = length (out_queue l) + length (puts [a])).
    { destruct a; cbn in Ha; try discriminate Ha; unfold exec in E1.
      - destruct (length (out_queue l) <? out_queue_maxsize)%nat; [| discriminate].
        inversion E1; subst. cbn. rewrite length_app. cbn. repeat split; try exact Hs; try lia.
      - destruct (out_queue l) as [|msg q]; [discriminate |].
        rewrite Hs in E1. inversion E1; subst. cbn. repeat split; try exact Hs; try lia.
      - inversion E1; subst. cbn. repeat split; try exact Hs; try lia.
      - crack E1; cbn; repeat split; try exact Hs; lia.
      - inversion E1; subst. cbn. repeat split; try exact Hs; try lia.
      - crack E1; cbn; repeat split; try exact Hs; lia. }
    destruct Hstep as (S1 & Hs1 & L1).
    destruct (IH _ _ _ Hs1 Hc E2) as (S2 & Hs2 & L2).
    rewrite S1, S2. split; [reflexivity |]. split; [exact Hs2 |].
    change (a :: acts) with ([a] ++ acts). rewrite List.filter_app, length_app. lia.
Qed.

Lemma without_session_messages_are_lost_witness :
  sent [Printed "Session is not initialized. Unable to send message."] = []
  /\ session (__init__ "camera") = None
  /\ length (out_queue (__init__ "camera"))
       + length (List.filter is_send [Put Sample.mic1; SendRealtime])
     = length (out_queue (__init__ "camera"))
       + length (puts [Put Sample.mic1; SendRealtime]).
Proof.
  exact (without_session_messages_are_lost [Put Sample.mic1; SendRealtime]
           (__init__ "camera") (__init__ "camera")
           [Printed "Session is not initialized. Unable to send message."]
           eq_refl eq_refl eq_refl).
Defined.

End Outbound.

(** ** stop, once more *)

Section StopAgain.
Import Loop Text.

Lemma digits_of_uint (u : Decimal.uint) :
  digits_only (NilEmpty.string_of_uint u) = true.
Proof. induction u; cbn; auto. Qed.

Lemma lower_digits (s : string) : digits_only s = true -> lower s = s.
Proof.
  induction s as [|c s IH]; [reflexivity |].
  cbn [digits_only lower]. intros H. apply andb_prop in H as [Hc Hs].
  rewrite (IH Hs). f_equal. unfold lower_char, is_digit in *.
  apply andb_prop in Hc as [_ Hu]. apply Nat.leb_le in Hu.
  destruct (65 <=? nat_of_ascii c)%nat eqn:E; [| reflexivity].
  apply Nat.leb_le in E. lia.
Qed.

(** A word that starts with a letter does not occur in a run of digits. *)
Lemma contains_digits (c : ascii) (sub s : string) :
  is_digit c = false -> digits_only s = true -> contains (String c sub) s = false.
Proof.
  intros Hc. induction s as [|d s IH]; [reflexivity |].
  cbn [digits_only contains String.prefix]. intros H.
  apply andb_prop in H as [Hd Hs]. rewrite (IH Hs).
  destruct (ascii_dec c d) as [-> | _]; [congruence | reflexivity].
Qed.

Lemma app_task_default (n : nat) : app_task (default_task_name n) = false.
Proof.
  unfold app_task, default_task_name, show_nat.
  pose proof (digits_of_uint (Nat.to_uint n)) as Hd.
  set (ds := NilEmpty.string_of_uint (Nat.to_uint n)) in *.
  change (lower (String.append "Task-" ds))
    with (String "t" (String "a" (String "s" (String "k" (String "-" (lower ds)))))).
  rewrite (lower_digits ds Hd). simpl.
  rewrite !contains_digits by (exact Hd || reflexivity). reflexivity.
Qed.

(** X6: tasks that carry asyncio's default names are not picked for
    cancellation, so with only such tasks around [stop] cancels none. *)
Theorem default_names_not_cancelled (ns : list nat) (e : StopEnv) (l : AudioLoop) :
  List.filter app_task (map default_task_name ns) = []
  /\ In "Successfully cancelled 0 tasks"
       (snd (stop {| destroy_windows := destroy_windows e;
                     stream_stop := stream_stop e;
                     session_close := session_close e;
                     task_names := map default_task_name ns |} l)).
Proof.
  assert (Hf : List.filter app_task (map default_task_name ns) = []).
  { induction ns as [|n ns IH]; [reflexivity |].
    cbn [map List.filter]. now rewrite app_task_default. }
  split; [exact Hf |].
  unfold stop. cbn [task_names]. rewrite Hf.
  destruct (destroy_windows e), (audio_stream l) as [|[st|]], (stream_stop e),
    (session l), (session_close e); simpl;
    repeat (first [left; reflexivity | right]).
Qed.


End StopAgain.

(** ** The wrapper, across calls *)

Section WrapperAgain.
Import Loop Wrapper.

(** X8: the first wrapper call after import, or after a stop, creates the loop
    and thereby decides its [video_mode]: the mode that call passes.  Calls
    that follow, up to the next stop, run on that loop in that mode. *)
Theorem first_call_fixes_mode (o : op) (os : list op) (m : state) :
  _audio_loop m = None ->
  existsb is_stop (o :: os) = false ->
  exists a,
    _audio_loop (apply_ops (o :: os) m) = Some a
    /\ mode_at a (apply_ops (o :: os) m) = Some (op_mode o)
    /\ heap m !! a = None.
Proof.
  intros Hn Hs. cbn [existsb] in Hs. apply orb_false_iff in Hs as [Ho Hs].
  exists (fresh (dom (heap m))).
  assert (Hg : _audio_loop (apply_op o m) = Some (fresh (dom (heap m)))).
  { destruct (apply_op_shape o m Ho) as (mt & acts & ->).
    rewrite (ensure_new _ _ Hn). reflexivity. }
  assert (Hv : mode_at (fresh (dom (heap m))) (apply_op o m) = Some (op_mode o)).
  { destruct (apply_op_shape o m Ho) as (mt & acts & ->).
    rewrite (ensure_new _ _ Hn). cbn [fst snd].
    rewrite invoke_mode_at. unfold mode_at. cbn. now rewrite lookup_insert_eq. }
  cbn [apply_ops fold_left]. fold (apply_ops os (apply_op o m)).
  split; [now apply apply_ops_global |].
  split; [now apply apply_ops_mode_at | apply fresh_unused].
Qed.

(** [GEMINI_SEND_TEXT] first and [GEMINI_RUN(mode="screen")] second: the loop
    runs in camera mode. *)
Lemma first_call_fixes_mode_witness :
  exists a,
    _audio_loop (apply_ops [SendText; Run "screen" Sample.live []] imported) = Some a
    /\ mode_at a (apply_ops [SendText; Run "screen" Sample.live []] imported)
       = Some "camera"
    /\ heap imported !! a = None.
Proof.
  exact (first_call_fixes_mode SendText [Run "screen" Sample.live []] imported
           eq_refl eq_refl).
Defined.

Lemma size_invoke mt acts a m : size (heap (invoke mt acts a m)) = size (heap m).
Proof.
  unfold invoke. cbn. rewrite <- !size_dom. now rewrite dom_alter_L.
Qed.

Lemma apply_op_size o m :
  size (heap (apply_op o m)) + match _audio_loop (apply_op o m) with Some _ => 0 | None => 1 end
  <= size (heap m) + match _audio_loop m with Some _ => 0 | None => 1 end + (if is_stop o then 1 else 0).
Proof.
  destruct (is_stop o) eqn:Es.
  - destruct o; try discriminate Es. cbn [apply_op]. unfold GEMINI_STOP.
    destruct (_audio_loop m) as [b|] eqn:Eg; [| cbn; rewrite Eg; lia].
    destruct (heap m !! b) as [obj|] eqn:Eb; [| cbn; lia].
    destruct (stop_fields e obj) as [out ->]. cbn.
    rewrite map_size_insert_Some by eauto. lia.
  - destruct (apply_op_shape o m Es) as (mt & acts & ->).
    rewrite size_invoke. unfold invoke. cbn [_audio_loop]. rewrite ensure_sets.
    unfold _ensure_audio_loop. destruct (_audio_loop m) as [b|]; cbn; [lia |].
    rewrite map_size_insert_None by apply fresh_unused. lia.
Qed.

(** X9: the wrapper creates a loop only when it has none: over any sequence of
    calls from import, the number of loops ever created is at most one more
    than the number of stops. *)
Theorem loops_created_bound (os : list op) :
  size (heap (apply_ops os imported)) <= S (length (List.filter is_stop os)).
Proof.
  assert (H : forall os m,
             size (heap (apply_ops os m)) + match _audio_loop (apply_ops os m) with Some _ => 0 | None => 1 end
             <= size (heap m) + match _audio_loop m with Some _ => 0 | None => 1 end
                + length (List.filter is_stop os)).
  { clear os. induction os as [|o os IH]; intros m; [cbn; lia |].
    cbn [apply_ops fold_left]. fold (apply_ops os (apply_op o m)).
    pose proof (IH (apply_op o m)) as H1. pose proof (apply_op_size o m) as H2.
    cbn [List.filter]. destruct (is_stop o); cbn [length]; lia. }
  specialize (H os imported).
  change (heap imported) with (∅ : gmap nat AudioLoop) in H.
  rewrite map_size_empty in H. cbn [_audio_loop imported] in H.
  destruct (_audio_loop (apply_ops os imported)); lia.
Qed.

End WrapperAgain.

(** ** The API, once more *)

Section ApiAgain.
Import Api.

(** X10: with [GEMINI_API_KEY] unset or empty, [/stop] answers 500 with a detail
    that starts with the handler's own prefix, whatever [GEMINI_STOP] would
    have done: the call is not made. *)
Theorem stop_without_key (getenv_key : option string)
  (f g : unit -> outcome bool) (now : string) :
  truthy getenv_key = false ->
  stop_gemini getenv_key f now = stop_gemini getenv_key g now
  /\ exists d,
      stop_gemini getenv_key f now
      = HTTPException 500 (String.append "Failed to stop session: " d).
Proof.
  intros H. unfold stop_gemini. rewrite H. cbn [negb].
  split; [reflexivity | eexists; reflexivity].
Qed.

(** An empty key counts as missing, even if stopping would succeed. *)
Lemma stop_without_key_witness :
  stop_gemini (Some EmptyString) (fun _ => Returns true) "t"
  = stop_gemini (Some EmptyString) (fun _ => Raises "x") "t"
  /\ exists d,
      stop_gemini (Some EmptyString) (fun _ => Returns true) "t"
      = HTTPException 500 (String.append "Failed to stop session: " d).
Proof.
  exact (stop_without_key (Some EmptyString) (fun _ => Returns true)
           (fun _ => Raises "x") "t" eq_refl).
Defined.

(** X11: no handler answers with anything but 200 and a body of status
    ["success"], or 500 and no such body. *)
Theorem replies_are_200_or_500 (e : endpoint) (getenv_key : option string)
  (call : outcome bool) (now : string) :
  (status_code_of (serve e getenv_key call now) = 200
   /\ body_status (serve e getenv_key call now) = Some "success")
  \/ (status_code_of (serve e getenv_key call now) = 500
      /\ body_status (serve e getenv_key call now) = None).
Proof.
  destruct e, call as [[|] | msg]; cbn; unfold stop_gemini;
    try destruct (truthy getenv_key); cbn; auto.
Qed.

(** X12: how [/run] answers once [run] is over: leaving through [q] gives 200; a
    failure of the task group gives 200 as well if the microphone stream is
    there to be closed, and 500 if [audio_stream] was never assigned or is
    [None]; any other exception gives 500.  The stream is closed in the
    second case only. *)
Theorem run_reply_after_exit (en : Text.ending) (l : Loop.AudioLoop) (req : mode)
  (now : string) :
  status_code_of (run_gemini (fun _ => fst (Text.run_exit en l)) req now)
  = match en, Loop.audio_stream l with
    | Text.UserExit, _ => 200
    | Text.TaskFailure, Loop.Attr (Some _) => 200
    | _, _ => 500
    end
  /\ snd (Text.run_exit en l)
     = match en, Loop.audio_stream l with
       | Text.TaskFailure, Loop.Attr (Some _) => true
       | _, _ => false
       end.
Proof.
  destruct en; cbn; try (split; reflexivity).
  destruct (Loop.audio_stream l) as [|[st|]]; split; reflexivity.
Qed.

End ApiAgain.

(** ** The page, once more *)

Section PageAgain.
Import Loop Text.

Lemma set_if_missing_union (key : string) (v : SessionDict.pyval)
  (d : gmap string SessionDict.pyval) :
  SessionDict.set_if_missing key v d = d ∪ {[key := v]}.
Proof.
  unfold SessionDict.set_if_missing. destruct (d !! key) as [x|] eqn:E.
  - apply map_eq. intros j. rewrite lookup_union.
    destruct (decide (key = j)) as [<- | Hne].
    + rewrite E, lookup_singleton_eq. reflexivity.
    + rewrite lookup_singleton_ne by exact Hne. now destruct (d !! j).
  - now apply insert_union_singleton_r.
Qed.

(** X13: [init_session_state] adds the seven defaults for the keys that are
    missing and leaves every entry that exists as it is; running it again
    changes nothing. *)
Theorem init_session_state_fills_gaps (d : gmap string SessionDict.pyval) :
  SessionDict.init_session_state d = d ∪ SessionDict.defaults
  /\ SessionDict.init_session_state (SessionDict.init_session_state d)
     = SessionDict.init_session_state d
  /\ dom SessionDict.defaults
     = list_to_set ["session_started"; "process"; "text_input"; "api_key_status";
                    "camera_placeholder"; "camera_thread"; "cap"].
Proof.
  assert (H : forall d, SessionDict.init_session_state d = d ∪ SessionDict.defaults).
  { intros d'. unfold SessionDict.defaults, SessionDict.init_session_state.
    rewrite !set_if_missing_union. rewrite (left_id_L ∅ (∪)).
    now rewrite !(assoc_L (∪)). }
  split; [apply H |]. split.
  - rewrite (H (SessionDict.init_session_state d)), (H d).
    rewrite <- (assoc_L (∪)). now rewrite (idemp_L (∪)).
  - unfold SessionDict.defaults, SessionDict.init_session_state.
    rewrite !set_if_missing_union. rewrite (left_id_L ∅ (∪)).
    rewrite !dom_union_L, !dom_singleton_L. cbn. set_solver.
Qed.


Lemma input_strips_newline (t : string) :
  input (String.append t (String "010"%char EmptyString)) = t.
Proof.
  induction t as [|c t IH]; [reflexivity |].
  change (String.append (String c t) (String "010"%char EmptyString))
    with (String c (String.append t (String "010"%char EmptyString))).
  cbn [input]. rewrite IH.
  destruct t; reflexivity.
Qed.

Lemma is_quit_nonempty (t : string) : is_quit t = true -> t <> EmptyString.
Proof. intros H ->. discriminate H. Qed.

(** X15: sending the text [q] (or [Q]) from the page makes the child's
    [send_text] loop leave, which ends its [run]; the page neither signals
    the child nor stops counting the session as started. *)
Theorem quit_text_ends_child (h : Page.host) (pid : nat) (c : Page.child)
  (sess : option Session) :
  Page.session_started (Page.st h) = true ->
  Page.process (Page.st h) = Some pid ->
  Page.children h !! pid = Some c ->
  is_quit (Page.text_input (Page.st h)) = true ->
  exists c',
    Page.children (Page.send_text h) !! pid = Some c'
    /\ fst (child_send_text sess c') = true
    /\ Page.signalled c' = Page.signalled c
    /\ Page.session_started (Page.st (Page.send_text h)) = true
    /\ Page.process (Page.st (Page.send_text h)) = Some pid.
Proof.
  intros Hs Hp Hc Hq.
  pose proof (is_quit_nonempty _ Hq) as Hne.
  unfold Page.send_text. rewrite Hs, Hp. cbn [negb].
  destruct (Page.text_input (Page.st h)) as [|ch t] eqn:Et; [congruence |].
  cbn [Page.children Page.st Page.session_started Page.process].
  rewrite lookup_alter_eq, Hc. cbn [fmap option_fmap option_map].
  eexists. split; [reflexivity |].
  split; [| repeat split; assumption].
  unfold child_send_text, Page.write_line. cbn [Page.stdin].
  rewrite send_text_quits, map_app, existsb_app. cbn [map existsb fst].
  rewrite input_strips_newline, Hq. now rewrite orb_true_r.
Qed.

Lemma quit_text_ends_child_witness :
  exists c',
    Page.children (Page.send_text Sample2.typing_quit) !! 0 = Some c'
    /\ fst (child_send_text None c') = true
    /\ Page.signalled c' = false
    /\ Page.session_started (Page.st (Page.send_text Sample2.typing_quit)) = true
    /\ Page.process (Page.st (Page.send_text Sample2.typing_quit)) = Some 0.
Proof.
  exact (quit_text_ends_child Sample2.typing_quit 0
           {| Page.main := __init__ DEFAULT_MODE; Page.stdin := [];
              Page.signalled := false |}
           None eq_refl eq_refl eq_refl eq_refl).
Defined.

(** X16: [start_session] never signals, rewrites or forgets a child that exists;
    when it spawns, the new child is another process, and it is the only one
    the page keeps a handle on. *)
Theorem start_session_keeps_children (client popen : bool) (h : Page.host)
  (pid : nat) (c : Page.child) :
  Page.children h !! pid = Some c ->
  Page.children (Page.start_session client popen h) !! pid = Some c
  /\ (if client && popen
      then Page.process (Page.st (Page.start_session client popen h)) <> Some pid
      else True).
Proof.
  intros Hc. unfold Page.start_session, Page.check_api_key.
  destruct client; cbn; [| split; [exact Hc | exact I]].
  destruct popen; cbn; [| split; [exact Hc | exact I]].
  assert (Hne : fresh (dom (Page.children h)) <> pid).
  { intros <-. pose proof (is_fresh (dom (Page.children h))) as Hf.
    apply not_elem_of_dom in Hf. congruence. }
  split; [now rewrite lookup_insert_ne | congruence].
Qed.

(** Starting twice: child 0 is still there, untouched, and the page now
    tracks another process. *)
Lemma start_session_keeps_children_witness :
  Page.children (Page.start_session true true (Page.start_session true true Page.fresh_host))
    !! 0
  = Some {| Page.main := __init__ DEFAULT_MODE; Page.stdin := [];
            Page.signalled := false |}
  /\ Page.process (Page.st (Page.start_session true true
                              (Page.start_session true true Page.fresh_host)))
     <> Some 0.
Proof.
  exact (start_session_keeps_children true true
           (Page.start_session true true Page.fresh_host) 0
           {| Page.main := __init__ DEFAULT_MODE; Page.stdin := [];
              Page.signalled := false |} eq_refl).
Defined.

End PageAgain.

(** ** What a turn end cuts off *)

Section CutOff.
Import Loop.

(** X18: audio of a finished turn is never played late: after a turn end, what is
    written to the speaker and what is still queued are the chunks received
    since. *)
Theorem no_playback_after_turn_end acts1 acts2 l l1 l2 e1 e2 :
  run_actions (acts1 ++ [TurnEnd]) l = Some (l1, e1) ->
  existsb ends_turn acts2 = false ->
  run_actions acts2 l1 = Some (l2, e2) ->
  wrote e2 ++ audio_in_queue l2 = received acts2.
Proof.
  intros H1 Hc H2. rewrite run_actions_app in H1.
  destruct (run_actions acts1 l) as [[l' e']|]; [| discriminate].
  cbn in H1. inversion H1; subst; clear H1.
  pose proof (run_actions_audio_in_queue acts2 _ _ _ Hc H2) as Hinv.
  cbn [audio_in_queue] in Hinv. rewrite drain_nil in Hinv. now rewrite <- Hinv.
Qed.

Lemma no_playback_after_turn_end_witness :
  wrote [Wrote Sample.chunk_b] ++ audio_in_queue Sample.connected
  = received [Receive (Response (Some Sample.chunk_b) None); Play].
Proof.
  exact (no_playback_after_turn_end
           [Receive (Response (Some Sample.chunk_a) None)]
           [Receive (Response (Some Sample.chunk_b) None); Play]
           Sample.connected Sample.connected Sample.connected
           [] [Wrote Sample.chunk_b] eq_refl eq_refl eq_refl).
Defined.

End CutOff.
